(** * Mandelbrot viewer: escape-time evaluation, coordinate mapping, colouring

    A shallow embedding of [src/app/components/MandelbrotViewer.tsx] (the React
    component with its WebGL fragment shader and its GSAP animation callbacks)
    and of the canvas routine [renderMandelbrot] with its helper [hslToRgb].

    Numeric model.  A JavaScript [number] and a GLSL [float] are both modelled
    by an exact rational ([Q]): every arithmetic operation of the source is
    the corresponding field operation, comparisons are the order of [Q], and
    [Math.round], [Math.floor], [floor], [mod] and [%] are the integer-part
    functions they denote.  Rounding to binary64/binary32, overflow and NaN
    are outside this model; where the source divides by the iteration cap
    the statements assume the cap is not 0.  A literal with an integral
    value is written without its decimal point ([2.0] as [2]).  Values the
    source uses as integers (loop counters, pixel indices, buffer
    dimensions, the iteration cap, the shader's [int]s) are [Z].  Only
    [Math.log] needs the real numbers.

    Effects.  The 2D context is the list of the images put on it.  The WebGL
    context is the log of the calls [compileShader] and [createProgram] make
    on it, together with its answers, which are left free; a [throw] is an
    outcome of the computation. *)

From Stdlib Require Import ZArith QArith Qround Qreals Reals Lra Lqa Lia Bool.
From Stdlib Require String.
Import String.StringSyntax.
Delimit Scope string_scope with string.
From stdpp Require Import base list list_numbers.

Open Scope Q_scope.

(** ** Numbers *)

Module Num.

(** [x < y] on numbers, as a boolean. *)
Definition ltb (x y : Q) : bool := negb (Qle_bool y x).

(** [x <= y] on numbers, as a boolean. *)
Definition leb (x y : Q) : bool := Qle_bool x y.

(** Truncation toward zero (the integer quotient that [%] uses). *)
Definition trunc (x : Q) : Z := if ltb x 0 then Qceiling x else Qfloor x.

(** JavaScript [a % b]: the remainder takes the sign of the dividend. *)
Definition rem (a b : Q) : Q := a - b * inject_Z (trunc (a / b)).

(** GLSL [floor(x)], a float again. *)
Definition floor (x : Q) : Q := inject_Z (Qfloor x).

(** GLSL [mod(x, y) = x - y * floor(x / y)]. *)
Definition mod_ (x y : Q) : Q := x - y * floor (x / y).

(** JavaScript [Math.round]: nearest integer, ties toward plus infinity. *)
Definition Math_round (x : Q) : Z := Qfloor (x + 1 / 2).

(** Conversion of an integer-valued number into a [Uint8ClampedArray]
    element (the [ImageData.data] store). *)
Definition toUint8Clamp (v : Z) : Z := Z.max 0 (Z.min 255 v).

(** JavaScript [Math.floor (r)] of a real. *)
Definition Math_floor (r : R) : Z := Zfloor r.

(** JavaScript [Math.log]: the natural logarithm. *)
Definition Math_log (x : Q) : R := ln (Q2R x).

End Num.

Notation "x <? y" := (Num.ltb x y) : Q_scope.
Notation "x >? y" := (Num.ltb y x) : Q_scope.
Notation "x <=? y" := (Num.leb x y) : Q_scope.
Notation "x >=? y" := (Num.leb y x) : Q_scope.
Notation "a 'rem' b" := (Num.rem a b) (at level 40, left associativity) : Q_scope.

(** Two- to four-component vectors of the shading language. *)
Record vec2 := Vec2 { v2x : Q; v2y : Q }.
Record vec3 := Vec3 { v3x : Q; v3y : Q; v3z : Q }.
Record vec4 := Vec4 { v4x : Q; v4y : Q; v4z : Q; v4w : Q }.

(** The state of an escape-time loop: the iterate [(x, y)] and the counter
    the colour stage reads. *)
Record IterState := mkIter { it_x : Q; it_y : Q; it_iter : Z }.

(** ** The fragment shader ([fragmentShaderSource]) *)

Module Shader.

(** Uniforms supplied from JS. *)
Record Uniforms := mkUniforms {
  uScale : Q;
  uHueShift : Q;
  uResolution : vec2;
  uCenter : vec2;
  uMaxIter : Z
}.

Definition baseWidth : Q := 3.5.

(** The compile-time bound of the [for] loop. *)
Definition LOOP_BOUND : Z := 20000.

Definition hue2rgb (p q t : Q) : Q :=
  let t := if t <? 0 then t + 1 else t in
  let t := if t >? 1 then t - 1 else t in
  if t <? 1 / 6 then p + (q - p) * 6 * t
  else if t <? 1 / 2 then q
  else if t <? 2 / 3 then p + (q - p) * (2 / 3 - t) * 6
  else p.

Definition hsl2rgb (h s l : Q) : vec3 :=
  let q := if l <? 0.5 then l * (1 + s) else l + s - l * s in
  let p := 2 * l - q in
  let r := hue2rgb p q (h + 1 / 3) in
  let g := hue2rgb p q h in
  let b := hue2rgb p q (h - 1 / 3) in
  Vec3 r g b.

(** Steps 1 to 3 of [main]: the window [(xMin, xMax, yMin, yMax)] of the
    complex plane shown on screen. *)
Definition window (u : Uniforms) : Q * Q * Q * Q :=
  let aspect := v2y (uResolution u) / v2x (uResolution u) in
  let w := baseWidth / uScale u in
  let h := w * aspect in
  let xMin := v2x (uCenter u) - w / 2 in
  let xMax := v2x (uCenter u) + w / 2 in
  let yMin := v2y (uCenter u) - h / 2 in
  let yMax := v2y (uCenter u) + h / 2 in
  (xMin, xMax, yMin, yMax).

(** Step 4 of [main]: [gl_FragCoord] to the complex plane. *)
Definition sample (u : Uniforms) (gl_FragCoord : vec2) : Q * Q :=
  let '(xMin, xMax, yMin, yMax) := window u in
  let x0 := xMin + (v2x gl_FragCoord / v2x (uResolution u)) * (xMax - xMin) in
  let y0 := yMin + (v2y gl_FragCoord / v2y (uResolution u)) * (yMax - yMin) in
  (x0, y0).

(** Step 5 of [main]: the body of [for (int i = 0; i < 20000; i++)], run
    from counter value [i] with [fuel] counter values left below the bound.
    [iter] keeps its initial value unless the escape test assigns it. *)
Fixpoint loop (fuel : nat) (i : Z) (uMaxIter : Z) (x0 y0 : Q)
    (st : IterState) : IterState :=
  match fuel with
  | O => st
  | S fuel' =>
      if (i >=? uMaxIter)%Z then st
      else
        let xTemp := it_x st * it_x st - it_y st * it_y st + x0 in
        let y := 2 * it_x st * it_y st + y0 in
        let x := xTemp in
        if x * x + y * y >? 4 then mkIter x y i
        else loop fuel' (i + 1)%Z uMaxIter x0 y0 (mkIter x y (it_iter st))
  end.

(** [x = 0; y = 0; iter = 0] followed by the loop. *)
Definition iterate (uMaxIter : Z) (x0 y0 : Q) : IterState :=
  loop (Z.to_nat LOOP_BOUND) 0 uMaxIter x0 y0 (mkIter 0 0 0).

(** The hue of an outside point, in degrees, after [mod]. *)
Definition hue_degrees (iter uMaxIter : Z) (uHueShift : Q) : Q :=
  let ratio := inject_Z iter / inject_Z uMaxIter in
  Num.mod_ (ratio * 360 + uHueShift) 360.

(** Step 6 of [main]: the colour written to [gl_FragColor]. *)
Definition color (iter uMaxIter : Z) (uHueShift : Q) : vec4 :=
  if (iter =? uMaxIter)%Z then
    Vec4 0 0 0 1
  else
    let hue := hue_degrees iter uMaxIter uHueShift / 360 in
    let c := hsl2rgb hue 1 0.5 in
    Vec4 (v3x c) (v3y c) (v3z c) 1.

(** [main]: the value of [gl_FragColor] for one fragment. *)
Definition main (u : Uniforms) (gl_FragCoord : vec2) : vec4 :=
  let '(x0, y0) := sample u gl_FragCoord in
  let st := iterate (uMaxIter u) x0 y0 in
  color (it_iter st) (uMaxIter u) (uHueShift u).

(** The same loop with a ghost counter of the executed updates (the number
    of times the body computed [xTemp]); the shader itself keeps no such
    counter. *)
Fixpoint loop_updates (fuel : nat) (i : Z) (uMaxIter : Z) (x0 y0 : Q)
    (st : IterState) (updates : Z) : IterState * Z :=
  match fuel with
  | O => (st, updates)
  | S fuel' =>
      if (i >=? uMaxIter)%Z then (st, updates)
      else
        let xTemp := it_x st * it_x st - it_y st * it_y st + x0 in
        let y := 2 * it_x st * it_y st + y0 in
        let x := xTemp in
        if x * x + y * y >? 4 then (mkIter x y i, updates + 1)%Z
        else loop_updates fuel' (i + 1)%Z uMaxIter x0 y0
               (mkIter x y (it_iter st)) (updates + 1)%Z
  end.

Definition iterate_updates (uMaxIter : Z) (x0 y0 : Q) : IterState * Z :=
  loop_updates (Z.to_nat LOOP_BOUND) 0 uMaxIter x0 y0 (mkIter 0 0 0) 0.

End Shader.

(** ** The canvas routine ([renderMandelbrot], [hslToRgb]) *)

Module Canvas.

(** The object [hslToRgb] returns; [Math.round] makes each field an
    integer. *)
Record Rgb := mkRgb { r : Z; g : Z; b : Z }.

Definition hue2rgb (p q t : Q) : Q :=
  let t := if t <? 0 then t + 1 else t in
  let t := if t >? 1 then t - 1 else t in
  if t <? 1 / 6 then p + (q - p) * 6 * t
  else if t <? 1 / 2 then q
  else if t <? 2 / 3 then p + (q - p) * (2 / 3 - t) * 6
  else p.

Definition hslToRgb (h s l : Q) : Rgb :=
  let q := if l <? 0.5 then l * (1 + s) else l + s - l * s in
  let p := 2 * l - q in
  {| r := Num.Math_round (hue2rgb p q (h + 1 / 3) * 255);
     g := Num.Math_round (hue2rgb p q h * 255);
     b := Num.Math_round (hue2rgb p q (h - 1 / 3) * 255) |}.

(** The complex sample of pixel [(px, py)]. *)
Definition sample (px py width height : Z) (xMin xMax yMin yMax : Q)
    : Q * Q :=
  let x0 := xMin + (inject_Z px / inject_Z width) * (xMax - xMin) in
  let y0 := yMin + (inject_Z py / inject_Z height) * (yMax - yMin) in
  (x0, y0).

(** [while (x * x + y * y <= 4 && iter < maxIter) { ... iter++ }].  Each
    turn increments [iter], so [maxIter - iter] turns always suffice;
    [escape_time] starts the loop with that much [fuel]. *)
Fixpoint while_loop (fuel : nat) (maxIter : Z) (x0 y0 : Q)
    (st : IterState) : IterState :=
  match fuel with
  | O => st
  | S fuel' =>
      if (it_x st * it_x st + it_y st * it_y st <=? 4)
         && (it_iter st <? maxIter)%Z
      then
        let xTemp := it_x st * it_x st - it_y st * it_y st + x0 in
        let y := 2 * it_x st * it_y st + y0 in
        let x := xTemp in
        while_loop fuel' maxIter x0 y0 (mkIter x y (it_iter st + 1))
      else st
  end.

(** [let x = 0, y = 0, iter = 0] followed by the loop. *)
Definition escape_time (maxIter : Z) (x0 y0 : Q) : IterState :=
  while_loop (Z.to_nat maxIter) maxIter x0 y0 (mkIter 0 0 0).

(** The loop condition, at a state. *)
Definition continues (maxIter : Z) (st : IterState) : bool :=
  (it_x st * it_x st + it_y st * it_y st <=? 4) && (it_iter st <? maxIter)%Z.

(** [const hue = ((ratio * 360) + hueShift) % 360]. *)
Definition hue_degrees (iter maxIter : Z) (hueShift : Q) : Q :=
  let ratio := inject_Z iter / inject_Z maxIter in
  ((ratio * 360) + hueShift) rem 360.

(** The colour object [c] of a pixel whose loop ended with [iter]. *)
Definition color (iter maxIter : Z) (hueShift : Q) : Rgb :=
  let hue := hue_degrees iter maxIter hueShift in
  hslToRgb (hue / 360) 1 0.5.

(** [ImageData.data]: a [Uint8ClampedArray]. *)
Definition Uint8ClampedArray := list Z.

(** [ctx.createImageData(width, height).data]: transparent black, for a
    positive [width] and [height] (a browser throws for a size of 0). *)
Definition createImageData (width height : Z) : Uint8ClampedArray :=
  replicate (Z.to_nat (width * height * 4)) 0%Z.

(** [data[idx] = v]: the value is clamped to a byte; a store outside the
    array is ignored. *)
Definition store (data : Uint8ClampedArray) (idx : Z) (v : Z)
    : Uint8ClampedArray :=
  if (idx <? 0)%Z then data
  else <[Z.to_nat idx := Num.toUint8Clamp v]> data.

(** The body of the inner loop: one pixel evaluated and its four bytes
    written. *)
Definition put_pixel (width height : Z) (xMin xMax yMin yMax : Q)
    (maxIter : Z) (hueShift : Q) (data : Uint8ClampedArray) (px py : Z)
    : Uint8ClampedArray :=
  let '(x0, y0) := sample px py width height xMin xMax yMin yMax in
  let st := escape_time maxIter x0 y0 in
  let iter := it_iter st in
  let idx := ((py * width + px) * 4)%Z in
  let c := color iter maxIter hueShift in
  let data := store data idx (r c) in
  let data := store data (idx + 1) (g c) in
  let data := store data (idx + 2) (b c) in
  let data := store data (idx + 3) 255 in
  data.

(** The two nested [for] loops over [px] and [py]. *)
Definition fill (width height : Z) (xMin xMax yMin yMax : Q)
    (maxIter : Z) (hueShift : Q) (data : Uint8ClampedArray)
    : Uint8ClampedArray :=
  foldl
    (fun data px =>
       foldl
         (fun data py =>
            put_pixel width height xMin xMax yMin yMax maxIter hueShift
              data px py)
         data (seqZ 0 height))
    data (seqZ 0 width).

Record ImageData := mkImageData {
  img_width : Z;
  img_height : Z;
  img_data : Uint8ClampedArray
}.

(** The rendering context, as far as [renderMandelbrot] acts on it: the
    images put on the canvas, oldest first, each with its offset. *)
Record CanvasRenderingContext2D := mkCtx {
  put_calls : list (ImageData * Z * Z)
}.

Definition putImageData (ctx : CanvasRenderingContext2D) (img : ImageData)
    (dx dy : Z) : CanvasRenderingContext2D :=
  mkCtx (put_calls ctx ++ [(img, dx, dy)]).

(** [renderMandelbrot]: returns the context after [putImageData]. *)
Definition renderMandelbrot (ctx : CanvasRenderingContext2D)
    (width height : Z) (xMin xMax yMin yMax : Q) (maxIter : Z)
    (hueShift : Q) : CanvasRenderingContext2D :=
  let data := createImageData width height in
  let data := fill width height xMin xMax yMin yMax maxIter hueShift data in
  putImageData ctx (mkImageData width height data) 0 0.

(** The pixel buffer most recently put on the canvas. *)
Definition presented (ctx : CanvasRenderingContext2D)
    : option Uint8ClampedArray :=
  (fun c => img_data (fst (fst c))) <$> last (put_calls ctx).

(** The bytes a pixel ends as in the buffer, for a loop that ended with
    [iter]. *)
Definition pixel_bytes (iter maxIter : Z) (hueShift : Q) : Z * Z * Z :=
  let c := color iter maxIter hueShift in
  (Num.toUint8Clamp (r c), Num.toUint8Clamp (g c), Num.toUint8Clamp (b c)).

End Canvas.

(** ** The component state and its animation ([MandelbrotViewer]) *)

Module Viewer.

Definition colorSpeed : Q := 0.1.
Definition zoomSpeed : Q := 1.005.
Definition MAX_SCALE : Q := 1.0e6.

(** [useState(0)] and [useState(100)]. *)
Definition initial_hueShift : Q := 0.
Definition initial_scale : Q := 100.

(** The updater passed to [setHueShift]. *)
Definition hue_update (prev : Q) : Q := (prev + colorSpeed) rem 360.

(** The updater passed to [setScale]. *)
Definition scale_update (prev : Q) : Q :=
  let newScale := prev * zoomSpeed in
  if newScale >=? MAX_SCALE then 1 else newScale.

(** The scale after [n] updates of the tween. *)
Fixpoint scale_after (n : nat) : Q :=
  match n with
  | O => initial_scale
  | S n' => scale_update (scale_after n')
  end.

(** The hue shift after [n] updates of the tween. *)
Fixpoint hue_after (n : nat) : Q :=
  match n with
  | O => initial_hueShift
  | S n' => hue_update (hue_after n')
  end.

(** [useMemo(() => ({ x: -0.7491, y: 0.1 }), [])]. *)
Definition center : vec2 := Vec2 (-0.7491) 0.1.

(** [Math.floor(500 + 100 * Math.log(scale))] in [render]. *)
Definition dynamicMaxIter (scale : Q) : Z :=
  Num.Math_floor (500 + 100 * Num.Math_log scale)%R.

(** The uniforms [render] uploads for a canvas of the given size. *)
Definition frame_uniforms (canvas_width canvas_height : Z)
    (scale hueShift : Q) : Shader.Uniforms :=
  Shader.mkUniforms scale hueShift
    (Vec2 (inject_Z canvas_width) (inject_Z canvas_height))
    center (dynamicMaxIter scale).

End Viewer.

(** ** The WebGL set-up ([compileShader], [createProgram]) *)

Module WebGL.

(** Shader and program objects, by identity. *)
Definition WebGLShader := Z.
Definition WebGLProgram := Z.

(** [gl.VERTEX_SHADER] and [gl.FRAGMENT_SHADER]. *)
Definition VERTEX_SHADER : Z := 35633.
Definition FRAGMENT_SHADER : Z := 35632.

(** The calls the two utilities make on the context [gl].  The parameter
    asked of a shader is [COMPILE_STATUS], of a program [LINK_STATUS]. *)
Inductive Call : Type :=
| gl_createShader (type : Z)
| gl_shaderSource (shader : WebGLShader) (source : String.string)
| gl_compileShader (shader : WebGLShader)
| gl_getShaderParameter (shader : WebGLShader)
| gl_getShaderInfoLog (shader : WebGLShader)
| gl_deleteShader (shader : WebGLShader)
| gl_createProgram
| gl_attachShader (program : WebGLProgram) (shader : WebGLShader)
| gl_linkProgram (program : WebGLProgram)
| gl_getProgramParameter (program : WebGLProgram)
| gl_getProgramInfoLog (program : WebGLProgram)
| gl_deleteProgram (program : WebGLProgram).

(** What the context answers.  The code observes nothing of [gl] but these
    answers, so each is left free: a function of the calls made so far, the
    asking call included.  [None] is JavaScript's [null]. *)
Record WebGLRenderingContext := mkContext {
  createShader_reply : list Call -> option WebGLShader;
  COMPILE_STATUS : list Call -> bool;
  getShaderInfoLog_reply : list Call -> option String.string;
  createProgram_reply : list Call -> option WebGLProgram;
  LINK_STATUS : list Call -> bool;
  getProgramInfoLog_reply : list Call -> option String.string
}.

(** A computation over the log of calls that returns or throws. *)
Inductive Outcome (A : Type) : Type :=
| Returned (value : A)
| Thrown (message : String.string).

Arguments Returned {A} value.
Arguments Thrown {A} message.

Definition GL (A : Type) : Type := list Call -> list Call * Outcome A.

Definition ret {A : Type} (value : A) : GL A :=
  fun log => (log, Returned value).

Definition throw {A : Type} (message : String.string) : GL A :=
  fun log => (log, Thrown message).

Definition bind {A B : Type} (m : GL A) (k : A -> GL B) : GL B :=
  fun log =>
    match m log with
    | (log', Returned value) => k value log'
    | (log', Thrown message) => (log', Thrown message)
    end.

(** A call whose result the code ignores, and one whose result it uses. *)
Definition call (c : Call) : GL unit :=
  fun log => (log ++ [c], Returned tt).

Definition ask {A : Type} (c : Call) (reply : list Call -> A) : GL A :=
  fun log => (log ++ [c], Returned (reply (log ++ [c]))).

Notation "x <- m ;; k" := (bind m (fun x => k))
  (at level 100, m at next level, right associativity).
Notation "m ;; k" := (bind m (fun _ => k))
  (at level 100, right associativity).

(** [`${info}`]: a template literal prints [null] as the word. *)
Definition template (info : option String.string) : String.string :=
  match info with
  | Some text => text
  | None => "null"%string
  end.

Definition compileShader (gl : WebGLRenderingContext)
    (source : String.string) (type : Z) : GL WebGLShader :=
  shader <- ask (gl_createShader type) (createShader_reply gl) ;;
  match shader with
  | None => throw "Failed to create shader."%string
  | Some shader =>
      call (gl_shaderSource shader source) ;;
      call (gl_compileShader shader) ;;
      status <- ask (gl_getShaderParameter shader) (COMPILE_STATUS gl) ;;
      if negb status then
        info <- ask (gl_getShaderInfoLog shader) (getShaderInfoLog_reply gl) ;;
        call (gl_deleteShader shader) ;;
        throw (String.append "Could not compile shader: " (template info))
      else ret shader
  end.

Definition createProgram (gl : WebGLRenderingContext)
    (vsSource fsSource : String.string) : GL WebGLProgram :=
  vShader <- compileShader gl vsSource VERTEX_SHADER ;;
  fShader <- compileShader gl fsSource FRAGMENT_SHADER ;;
  program <- ask gl_createProgram (createProgram_reply gl) ;;
  match program with
  | None => throw "Failed to create program."%string
  | Some program =>
      call (gl_attachShader program vShader) ;;
      call (gl_attachShader program fShader) ;;
      call (gl_linkProgram program) ;;
      status <- ask (gl_getProgramParameter program) (LINK_STATUS gl) ;;
      if negb status then
        info <- ask (gl_getProgramInfoLog program) (getProgramInfoLog_reply gl) ;;
        call (gl_deleteProgram program) ;;
        throw (String.append "Could not link program: " (template info))
      else ret program
  end.

End WebGL.

(** ** Vocabulary of the statements *)

(** A sample lies in the window [(xMin, xMax, yMin, yMax)], borders
    included. *)
Definition in_window (win : Q * Q * Q * Q) (p : Q * Q) : Prop :=
  let '(xMin, xMax, yMin, yMax) := win in
  (xMin <= fst p /\ fst p <= xMax) /\ (yMin <= snd p /\ snd p <= yMax).

(** [gl_FragCoord] of the fragment of pixel [(px, py)]: WebGL places it at
    the centre of the pixel. *)
Definition pixel_centre (px py : Z) : vec2 :=
  Vec2 (inject_Z px + 0.5) (inject_Z py + 0.5).

(** Two shader colours are the same numbers, channel by channel. *)
Definition vec4_eq (a b : vec4) : Prop :=
  v4x a == v4x b /\ v4y a == v4y b /\ v4z a == v4z b /\ v4w a == v4w b.

(** The four bytes [renderMandelbrot] stores for pixel [(px, py)]. *)
Definition pixel_quad (width height : Z) (xMin xMax yMin yMax : Q)
    (maxIter : Z) (hueShift : Q) (px py : Z) : list Z :=
  let '(x0, y0) := Canvas.sample px py width height xMin xMax yMin yMax in
  let iter := it_iter (Canvas.escape_time maxIter x0 y0) in
  let '(r, g, b) := Canvas.pixel_bytes iter maxIter hueShift in
  [r; g; b; 255%Z].

(** The calls on the context that destroy an object. *)
Definition is_deletion (c : WebGL.Call) : bool :=
  match c with
  | WebGL.gl_deleteShader _ | WebGL.gl_deleteProgram _ => true
  | _ => false
  end.

(** The deletions among the calls of a log. *)
Definition deletions (log : list WebGL.Call) : list WebGL.Call :=
  List.filter is_deletion log.

(** * Properties *)

(** ** Comparisons of numbers *)

Lemma ltb_lt (x y : Q) : (x <? y) = true <-> x < y.
Proof.
  unfold Num.ltb. rewrite negb_true_iff. split.
  - intros H. apply Qnot_le_lt. intros Hle.
    apply Qle_bool_iff in Hle. congruence.
  - intros H. destruct (Qle_bool y x) eqn:E; [|reflexivity].
    apply Qle_bool_iff in E. exfalso. lra.
Qed.

Lemma ltb_ge (x y : Q) : (x <? y) = false <-> y <= x.
Proof.
  unfold Num.ltb. rewrite negb_false_iff. apply Qle_bool_iff.
Qed.

Lemma leb_le (x y : Q) : (x <=? y) = true <-> x <= y.
Proof. apply Qle_bool_iff. Qed.

Lemma leb_gt (x y : Q) : (x <=? y) = false <-> y < x.
Proof.
  unfold Num.leb. split.
  - intros H. apply Qnot_le_lt. intros Hle.
    apply Qle_bool_iff in Hle. congruence.
  - intros H. destruct (Qle_bool x y) eqn:E; [|reflexivity].
    apply Qle_bool_iff in E. exfalso. lra.
Qed.

(** Quotients by a constant, such as [1 / 6], made literals the
    arithmetic procedures read. *)
Ltac qconst :=
  unfold Qdiv in *;
  repeat match goal with
  | |- context [Qinv (Qmake ?n ?d)] =>
      let v := eval cbv in (Qinv (Qmake n d)) in
      change (Qinv (Qmake n d)) with v
  | H : context [Qinv (Qmake ?n ?d)] |- _ =>
      let v := eval cbv in (Qinv (Qmake n d)) in
      change (Qinv (Qmake n d)) with v in H
  end.

Ltac qlra := qconst; lra.
Ltac qnra := qconst; nra.

(** Case analysis on the first comparison of numbers in the goal. *)
Ltac qcase :=
  match goal with
  | |- context [Num.ltb ?a ?b] =>
      let E := fresh "E" in
      destruct (Num.ltb a b) eqn:E; [apply ltb_lt in E | apply ltb_ge in E]
  | |- context [Num.leb ?a ?b] =>
      let E := fresh "E" in
      destruct (Num.leb a b) eqn:E; [apply leb_le in E | apply leb_gt in E]
  end.

(** ** The two escape-time loops *)

Lemma square_nonneg (a : Q) : 0 <= a * a.
Proof. nra. Qed.

Lemma square_le_sixteenth (s : Q) : 0 <= s -> s <= 1 / 4 -> s * s <= 1 / 16.
Proof. intros H0 H1. qnra. Qed.

(** One update of the recurrence keeps the iterate in the disc of radius
    1/2 when the sample lies in the disc of radius 1/4. *)
Lemma update_bounded (x y x0 y0 : Q) :
  x * x + y * y <= 1 / 4 ->
  x0 * x0 + y0 * y0 <= 1 / 16 ->
  (x * x - y * y + x0) * (x * x - y * y + x0)
  + (2 * x * y + y0) * (2 * x * y + y0) <= 1 / 4.
Proof.
  intros Hz Hc.
  pose proof (square_nonneg x) as Hx. pose proof (square_nonneg y) as Hy.
  assert (Hz0 : 0 <= x * x + y * y) by lra.
  pose proof (square_le_sixteenth _ Hz0 Hz) as Hsq.
  pose proof (square_nonneg (x * x - y * y - x0)) as Ha.
  pose proof (square_nonneg (2 * x * y - y0)) as Hb.
  qnra.
Qed.

(** The shader loop leaves [iter] untouched on a sample of the disc of
    radius 1/4: the escape test never fires. *)
Lemma shader_loop_bounded (fuel : nat) :
  forall (i m : Z) (x0 y0 : Q) (st : IterState),
    x0 * x0 + y0 * y0 <= 1 / 16 ->
    it_x st * it_x st + it_y st * it_y st <= 1 / 4 ->
    it_iter (Shader.loop fuel i m x0 y0 st) = it_iter st.
Proof.
  induction fuel as [|fuel IH]; intros i m x0 y0 st Hc Hz;
    cbn [Shader.loop]; [reflexivity|].
  destruct (i >=? m)%Z; [reflexivity|].
  pose proof (update_bounded _ _ _ _ Hz Hc) as Hstep.
  qcase.
  - exfalso. qlra.
  - rewrite IH; [reflexivity | assumption | exact Hstep].
Qed.

Lemma shader_iterate_bounded (m : Z) (x0 y0 : Q) :
  x0 * x0 + y0 * y0 <= 1 / 16 ->
  it_iter (Shader.iterate m x0 y0) = 0%Z.
Proof.
  intros Hc. unfold Shader.iterate.
  rewrite shader_loop_bounded; [reflexivity | assumption | cbn; qlra].
Qed.

(** The ghost counter does not change what the shader loop computes. *)
Lemma loop_updates_fst (fuel : nat) :
  forall (i m : Z) (x0 y0 : Q) (st : IterState) (u : Z),
    fst (Shader.loop_updates fuel i m x0 y0 st u) = Shader.loop fuel i m x0 y0 st.
Proof.
  induction fuel as [|fuel IH]; intros i m x0 y0 st u;
    cbn [Shader.loop Shader.loop_updates]; [reflexivity|].
  destruct (i >=? m)%Z; [reflexivity|].
  qcase; [reflexivity | apply IH].
Qed.

(** The updates executed from counter value [i] are bounded by the fuel and
    by the distance to the cap. *)
Lemma loop_updates_bound (fuel : nat) :
  forall (i m : Z) (x0 y0 : Q) (st : IterState) (u : Z),
    (u <= snd (Shader.loop_updates fuel i m x0 y0 st u) <= u + Z.of_nat fuel
     /\ (i <= m ->
         snd (Shader.loop_updates fuel i m x0 y0 st u) <= u + (m - i)))%Z.
Proof.
  induction fuel as [|fuel IH]; intros i m x0 y0 st u;
    cbn [Shader.loop_updates].
  - cbn [snd]. lia.
  - destruct (i >=? m)%Z eqn:Hcap.
    + cbn [snd]. lia.
    + rewrite Z.geb_leb in Hcap. apply Z.leb_gt in Hcap. qcase.
      * cbn [snd]. lia.
      * match goal with
        | |- context [Shader.loop_updates fuel ?i' m x0 y0 ?st' ?u'] =>
            specialize (IH i' m x0 y0 st' u')
        end.
        lia.
Qed.

(** The canvas loop stops only where its condition fails: the fuel
    [maxIter - iter] never runs out first. *)
Lemma while_loop_exits (fuel : nat) :
  forall (m : Z) (x0 y0 : Q) (st : IterState),
    (m - it_iter st <= Z.of_nat fuel)%Z ->
    Canvas.continues m (Canvas.while_loop fuel m x0 y0 st) = false.
Proof.
  induction fuel as [|fuel IH]; intros m x0 y0 st Hfuel;
    cbn [Canvas.while_loop].
  - unfold Canvas.continues. apply andb_false_iff. right.
    apply Z.ltb_ge. lia.
  - destruct ((it_x st * it_x st + it_y st * it_y st <=? 4)
              && (it_iter st <? m)%Z) eqn:Hcond.
    + apply IH. cbn [it_iter]. lia.
    + exact Hcond.
Qed.

(** More fuel than [maxIter - iter] changes nothing. *)
Lemma while_loop_fuel (fuel : nat) :
  forall (fuel' : nat) (m : Z) (x0 y0 : Q) (st : IterState),
    (m - it_iter st <= Z.of_nat fuel)%Z -> (fuel <= fuel')%nat ->
    Canvas.while_loop fuel' m x0 y0 st = Canvas.while_loop fuel m x0 y0 st.
Proof.
  induction fuel as [|fuel IH]; intros fuel' m x0 y0 st Hfuel Hle.
  - cbn [Canvas.while_loop]. destruct fuel' as [|fuel']; [reflexivity|].
    cbn [Canvas.while_loop].
    replace (it_iter st <? m)%Z with false
      by (symmetry; apply Z.ltb_ge; lia).
    rewrite andb_false_r. reflexivity.
  - destruct fuel' as [|fuel']; [lia|]. cbn [Canvas.while_loop].
    destruct ((it_x st * it_x st + it_y st * it_y st <=? 4)
              && (it_iter st <? m)%Z); [|reflexivity].
    apply IH; [cbn [it_iter]; lia | lia].
Qed.

(** [escape_time] returns the state in which the [while] condition fails. *)
Lemma escape_time_exits (maxIter : Z) (x0 y0 : Q) :
  Canvas.continues maxIter (Canvas.escape_time maxIter x0 y0) = false.
Proof.
  unfold Canvas.escape_time. apply while_loop_exits. cbn [it_iter]. lia.
Qed.

(** On a sample of the disc of radius 1/4 the canvas loop runs to the cap
    and ends inside the disc of radius 1/2. *)
Lemma while_loop_bounded (fuel : nat) :
  forall (m : Z) (x0 y0 : Q) (st : IterState),
    x0 * x0 + y0 * y0 <= 1 / 16 ->
    it_x st * it_x st + it_y st * it_y st <= 1 / 4 ->
    (it_iter st + Z.of_nat fuel = m)%Z ->
    let st' := Canvas.while_loop fuel m x0 y0 st in
    it_iter st' = m /\ it_x st' * it_x st' + it_y st' * it_y st' <= 1 / 4.
Proof.
  induction fuel as [|fuel IH]; intros m x0 y0 st Hc Hz Hfuel;
    cbn [Canvas.while_loop].
  - cbn zeta. split; [lia | assumption].
  - replace (it_iter st <? m)%Z with true
      by (symmetry; apply Z.ltb_lt; lia).
    replace (it_x st * it_x st + it_y st * it_y st <=? 4) with true
      by (symmetry; apply leb_le; qlra).
    cbn [andb]. apply IH; cbn [it_x it_y it_iter].
    + assumption.
    + apply update_bounded; assumption.
    + lia.
Qed.

(** One turn of each loop, below the cap. *)
Lemma shader_loop_step (fuel : nat) (i m : Z) (x0 y0 : Q) (st : IterState) :
  (i < m)%Z ->
  Shader.loop (S fuel) i m x0 y0 st =
  let x := it_x st * it_x st - it_y st * it_y st + x0 in
  let y := 2 * it_x st * it_y st + y0 in
  if x * x + y * y >? 4 then mkIter x y i
  else Shader.loop fuel (i + 1) m x0 y0 (mkIter x y (it_iter st)).
Proof.
  intros Hi. cbn [Shader.loop].
  replace (i >=? m)%Z with false
    by (symmetry; rewrite Z.geb_leb; apply Z.leb_gt; lia).
  reflexivity.
Qed.

Lemma while_loop_step (fuel : nat) (m : Z) (x0 y0 : Q) (st : IterState) :
  (it_iter st < m)%Z ->
  Canvas.while_loop (S fuel) m x0 y0 st =
  if it_x st * it_x st + it_y st * it_y st <=? 4 then
    Canvas.while_loop fuel m x0 y0
      (mkIter (it_x st * it_x st - it_y st * it_y st + x0)
              (2 * it_x st * it_y st + y0) (it_iter st + 1))
  else st.
Proof.
  intros Hi. cbn [Canvas.while_loop].
  replace (it_iter st <? m)%Z with true by (symmetry; apply Z.ltb_lt; lia).
  rewrite andb_true_r. reflexivity.
Qed.

(** The canvas loop at the origin: every turn leaves the iterate at zero. *)
Lemma while_loop_origin (fuel : nat) :
  forall (m k : Z),
    (k + Z.of_nat fuel <= m)%Z ->
    Canvas.while_loop fuel m 0 0 (mkIter 0 0 k)
    = mkIter 0 0 (k + Z.of_nat fuel).
Proof.
  induction fuel as [|fuel IH]; intros m k Hk.
  - cbn [Canvas.while_loop]. f_equal. lia.
  - rewrite while_loop_step by (cbn [it_iter]; lia).
    cbn [it_x it_y it_iter].
    change (0 * 0 + 0 * 0 <=? 4) with true. cbv iota.
    change (0 * 0 - 0 * 0 + 0) with 0. change (2 * 0 * 0 + 0) with 0.
    rewrite IH by lia. f_equal. lia.
Qed.

(** ** Claims about the escape-time evaluators *)

(** C10.  In the shader, the number of updates of the iterate is at most
    [min (uMaxIter, 20000)] for every sample and every cap [uMaxIter >= 0]:
    the loop is bounded by the constant 20000 whatever the uniform says.
    The counted loop computes the same state as the shader's loop. *)
Theorem C10_shader_updates_bounded (uMaxIter : Z) (x0 y0 : Q) :
  (0 <= uMaxIter)%Z ->
  fst (Shader.iterate_updates uMaxIter x0 y0) = Shader.iterate uMaxIter x0 y0
  /\ (0 <= snd (Shader.iterate_updates uMaxIter x0 y0)
      <= Z.min uMaxIter Shader.LOOP_BOUND)%Z.
Proof.
  intros Hm. unfold Shader.iterate_updates, Shader.iterate. split.
  - apply loop_updates_fst.
  - match goal with
    | |- context [Shader.loop_updates ?f ?i ?m ?a ?b ?st ?u] =>
        pose proof (loop_updates_bound f i m a b st u) as [Hfuel Hcap]
    end.
    unfold Shader.LOOP_BOUND in *. lia.
Qed.

Lemma C10_witness :
  (0 <= 30000)%Z /\
  (fst (Shader.iterate_updates 30000 0 0) = Shader.iterate 30000 0 0
   /\ (0 <= snd (Shader.iterate_updates 30000 0 0)
       <= Z.min 30000 Shader.LOOP_BOUND)%Z).
Proof.
  split; [lia | apply (C10_shader_updates_bounded 30000 0 0); lia].
Defined.

(** C2.  The two loops do not count alike.  On the sample (3, 0) with
    cap 5 the first update gives the iterate (3, 0), already outside the
    disc of radius 2.  The canvas loop has then counted one update and ends
    with [iter = 1]; the shader records the index of that update and ends
    with [iter = 0].  Both end in the same iterate. *)
Theorem C2_counts_differ_between_paths :
  Canvas.escape_time 5 3 0 = mkIter 3 0 1
  /\ Shader.iterate 5 3 0 = mkIter 3 0 0
  /\ it_iter (Canvas.escape_time 5 3 0) <> it_iter (Shader.iterate 5 3 0).
Proof.
  split; [vm_compute; reflexivity|]. split; [vm_compute; reflexivity|].
  vm_compute. discriminate.
Qed.

(** C3, as the code has it.  For the sample (2, 0) the first update gives
    the iterate (2, 0), whose squared magnitude is exactly 4 and does not
    exceed the threshold; the second update gives (6, 0) and escapes.  With
    a cap of at least 2 the shader records iteration 1 and the canvas loop
    counts 2. *)
Theorem C3_two_escapes_at_second_update (maxIter : Z) :
  (2 <= maxIter)%Z ->
  Shader.iterate 1 2 0 = mkIter 2 0 0
  /\ Canvas.escape_time 1 2 0 = mkIter 2 0 1
  /\ Shader.iterate maxIter 2 0 = mkIter 6 0 1
  /\ Canvas.escape_time maxIter 2 0 = mkIter 6 0 2.
Proof.
  intros Hm. split; [vm_compute; reflexivity|].
  split; [vm_compute; reflexivity|]. split.
  - unfold Shader.iterate.
    replace (Z.to_nat Shader.LOOP_BOUND) with (S (S (Z.to_nat 19998)))
      by (unfold Shader.LOOP_BOUND; lia).
    generalize (Z.to_nat 19998). intros fuel.
    rewrite shader_loop_step by lia. cbn [it_x it_y it_iter]. cbv zeta.
    change (0 * 0 - 0 * 0 + 2) with 2. change (2 * 0 * 0 + 0) with 0.
    change (2 * 2 + 0 * 0 >? 4) with false. cbv iota.
    rewrite shader_loop_step by lia. cbn [it_x it_y it_iter]. cbv zeta.
    change (2 * 2 - 0 * 0 + 2) with 6. change (2 * 2 * 0 + 0) with 0.
    change (6 * 6 + 0 * 0 >? 4) with true. cbv iota. reflexivity.
  - unfold Canvas.escape_time.
    replace (Z.to_nat maxIter) with (S (S (Z.to_nat (maxIter - 2)))) by lia.
    generalize (Z.to_nat (maxIter - 2)). intros fuel.
    rewrite while_loop_step by (cbn [it_iter]; lia).
    cbn [it_x it_y it_iter].
    change (0 * 0 + 0 * 0 <=? 4) with true. cbv iota.
    change (0 * 0 - 0 * 0 + 2) with 2. change (2 * 0 * 0 + 0) with 0.
    rewrite while_loop_step by (cbn [it_iter]; lia).
    cbn [it_x it_y it_iter].
    change (2 * 2 + 0 * 0 <=? 4) with true. cbv iota.
    change (2 * 2 - 0 * 0 + 2) with 6. change (2 * 2 * 0 + 0) with 0.
    change (0 + 1 + 1)%Z with 2%Z.
    destruct fuel as [|fuel]; cbn [Canvas.while_loop it_x it_y it_iter];
      [reflexivity|].
    change (6 * 6 + 0 * 0 <=? 4) with false. reflexivity.
Qed.

Lemma C3_witness :
  (2 <= 500)%Z /\
  (Shader.iterate 1 2 0 = mkIter 2 0 0
   /\ Canvas.escape_time 1 2 0 = mkIter 2 0 1
   /\ Shader.iterate 500 2 0 = mkIter 6 0 1
   /\ Canvas.escape_time 500 2 0 = mkIter 6 0 2).
Proof.
  split; [lia | apply (C3_two_escapes_at_second_update 500); lia].
Defined.

(** C3 as stated fails: with cap 5 neither path reports iteration 0 for the
    sample (2, 0). *)
Lemma C3_counterexample :
  it_iter (Shader.iterate 5 2 0) <> 0%Z
  /\ it_iter (Canvas.escape_time 5 2 0) <> 0%Z.
Proof. split; vm_compute; discriminate. Qed.

(** C5.  For the origin and every cap [maxIter > 0] the canvas loop runs to
    the cap and returns the iterate (0, 0) with [iter = maxIter]; the shader
    loop does not escape either, but its [iter] is still the initial 0 and
    not [uMaxIter]. *)
Theorem C5_origin_never_escapes (maxIter : Z) :
  (0 < maxIter)%Z ->
  Canvas.escape_time maxIter 0 0 = mkIter 0 0 maxIter
  /\ it_iter (Shader.iterate maxIter 0 0) = 0%Z
  /\ it_iter (Shader.iterate maxIter 0 0) <> maxIter.
Proof.
  intros Hm.
  assert (Hgpu : it_iter (Shader.iterate maxIter 0 0) = 0%Z)
    by (apply shader_iterate_bounded; qlra).
  split; [|split; [exact Hgpu | rewrite Hgpu; lia]].
  unfold Canvas.escape_time. rewrite while_loop_origin by lia.
  f_equal. lia.
Qed.

Lemma C5_witness :
  (0 < 500)%Z /\
  (Canvas.escape_time 500 0 0 = mkIter 0 0 500
   /\ it_iter (Shader.iterate 500 0 0) = 0%Z
   /\ it_iter (Shader.iterate 500 0 0) <> 500%Z).
Proof.
  split; [lia | apply (C5_origin_never_escapes 500); lia].
Defined.

(** ** The coordinate mappers *)

Lemma ratio_in_unit (a b : Q) : 0 <= a -> a < b -> 0 <= a / b /\ a / b < 1.
Proof.
  intros Ha Hab. assert (Hb : 0 < b) by lra. split.
  - apply Qle_shift_div_l; [assumption | lra].
  - apply Qlt_shift_div_r; [assumption | lra].
Qed.

(** Linear interpolation by a ratio of [0, 1) stays in the interval and
    below its upper end. *)
Lemma interpolate_in_range (lo hi t : Q) :
  lo < hi -> 0 <= t -> t < 1 ->
  lo <= lo + t * (hi - lo) /\ lo + t * (hi - lo) < hi.
Proof. intros Hlh H0 H1. split; nra. Qed.

Lemma pixel_ratio (p n : Z) :
  (0 <= p < n)%Z -> 0 <= inject_Z p / inject_Z n /\ inject_Z p / inject_Z n < 1.
Proof.
  intros [H0 H1]. apply ratio_in_unit.
  - rewrite Zle_Qle in H0. exact H0.
  - rewrite Zlt_Qlt in H1. exact H1.
Qed.

(** The shader's window is not empty when the scale and the resolution are
    positive. *)
Lemma shader_window_proper (u : Shader.Uniforms) :
  0 < Shader.uScale u ->
  0 < v2x (Shader.uResolution u) -> 0 < v2y (Shader.uResolution u) ->
  let '(xMin, xMax, yMin, yMax) := Shader.window u in
  xMin < xMax /\ yMin < yMax.
Proof.
  intros Hs Hrx Hry. unfold Shader.window.
  assert (Hw : 0 < Shader.baseWidth / Shader.uScale u).
  { apply Qlt_shift_div_l; [assumption|].
    unfold Shader.baseWidth. lra. }
  assert (Ha : 0 < v2y (Shader.uResolution u) / v2x (Shader.uResolution u)).
  { apply Qlt_shift_div_l; [assumption | lra]. }
  set (w := Shader.baseWidth / Shader.uScale u) in *.
  set (aspect := v2y (Shader.uResolution u) / v2x (Shader.uResolution u)) in *.
  assert (Hh : 0 < w * aspect) by nra.
  set (h := w * aspect) in *. clearbody w aspect h.
  split; qlra.
Qed.

Lemma shader_sample_range (u : Shader.Uniforms) (frag : vec2) :
  0 < Shader.uScale u ->
  0 <= v2x frag -> v2x frag < v2x (Shader.uResolution u) ->
  0 <= v2y frag -> v2y frag < v2y (Shader.uResolution u) ->
  in_window (Shader.window u) (Shader.sample u frag).
Proof.
  intros Hs Hx0 Hx1 Hy0 Hy1.
  pose proof (shader_window_proper u Hs) as Hwin.
  unfold Shader.sample. destruct (Shader.window u) as [[[xMin xMax] yMin] yMax].
  destruct Hwin as [Hx Hy]; [lra | lra |].
  destruct (ratio_in_unit _ _ Hx0 Hx1) as [Hrx0 Hrx1].
  destruct (ratio_in_unit _ _ Hy0 Hy1) as [Hry0 Hry1].
  unfold in_window. cbn [fst snd].
  pose proof (interpolate_in_range xMin xMax _ Hx Hrx0 Hrx1) as [? ?].
  pose proof (interpolate_in_range yMin yMax _ Hy Hry0 Hry1) as [? ?].
  repeat split; lra.
Qed.


(** ** The animation of the scale *)

Lemma MAX_SCALE_value : Viewer.MAX_SCALE == 1000000.
Proof. reflexivity. Qed.

Lemma scale_update_invariant (s : Q) :
  1 <= s -> s < Viewer.MAX_SCALE ->
  1 <= Viewer.scale_update s /\ Viewer.scale_update s < Viewer.MAX_SCALE.
Proof.
  intros H1 H2. pose proof MAX_SCALE_value as HM.
  unfold Viewer.scale_update. cbv zeta.
  unfold Viewer.zoomSpeed in *. qcase; split; lra.
Qed.

(** An update multiplies by [zoomSpeed], unless that reaches [MAX_SCALE]. *)
Lemma scale_update_cases (s : Q) :
  (s * Viewer.zoomSpeed < Viewer.MAX_SCALE
   /\ Viewer.scale_update s = s * Viewer.zoomSpeed)
  \/ (Viewer.MAX_SCALE <= s * Viewer.zoomSpeed /\ Viewer.scale_update s = 1).
Proof.
  unfold Viewer.scale_update. cbv zeta. qcase; [right | left]; split;
    solve [assumption | reflexivity].
Qed.

Lemma dynamicMaxIter_at_least_500 (s : Q) :
  1 <= s -> (500 <= Viewer.dynamicMaxIter s)%Z.
Proof.
  intros Hs. unfold Viewer.dynamicMaxIter, Num.Math_floor, Num.Math_log.
  apply Zfloor_lub. apply Qle_Rle in Hs. rewrite RMicromega.Q2R_1 in Hs.
  assert (Hln : (0 <= ln (Q2R s))%R).
  { destruct (Rle_lt_or_eq_dec _ _ Hs) as [Hlt | Heq].
    - rewrite <- ln_1. left. apply ln_increasing; [Lra.lra | assumption].
    - rewrite <- Heq, ln_1. Lra.lra. }
  Lra.lra.
Qed.

Lemma scale_after_succ (n : nat) :
  Viewer.scale_after (S n) = Viewer.scale_update (Viewer.scale_after n).
Proof. reflexivity. Qed.

Lemma scale_after_bounds (n : nat) :
  1 <= Viewer.scale_after n /\ Viewer.scale_after n < Viewer.MAX_SCALE.
Proof.
  pose proof MAX_SCALE_value as HM.
  induction n as [|n IH].
  - cbn [Viewer.scale_after]. unfold Viewer.initial_scale. split; lra.
  - rewrite scale_after_succ. destruct IH as [IH1 IH2].
    apply scale_update_invariant; assumption.
Qed.

(** C9.  From the initial scale 100, after any number of updates the scale
    satisfies [1 <= scale < MAX_SCALE = 1000000]; each update
    multiplies by 1.005 or, when that reaches [MAX_SCALE], resets to 1; and
    the iteration cap computed from the scale is at least 500. *)
Theorem C9_scale_invariant (n : nat) :
  (1 <= Viewer.scale_after n /\ Viewer.scale_after n < 1000000)
  /\ ((Viewer.scale_after n * 1.005 < 1000000
       /\ Viewer.scale_after (S n) = Viewer.scale_after n * 1.005)
      \/ (1000000 <= Viewer.scale_after n * 1.005
          /\ Viewer.scale_after (S n) = 1))
  /\ (500 <= Viewer.dynamicMaxIter (Viewer.scale_after n))%Z.
Proof.
  pose proof MAX_SCALE_value as HM.
  destruct (scale_after_bounds n) as [H1 H2]. split; [|split].
  - split; lra.
  - rewrite scale_after_succ.
    destruct (scale_update_cases (Viewer.scale_after n)) as [[Ha Hb] | [Ha Hb]];
      unfold Viewer.zoomSpeed in *; [left | right];
      (split; [lra | exact Hb]).
  - apply dynamicMaxIter_at_least_500. exact H1.
Qed.

(** ** Hue reduction: [mod] in the shader, [%] on the canvas *)

Lemma Qfloor_unique (z : Z) (q : Q) :
  inject_Z z <= q -> q < inject_Z z + 1 -> Qfloor q = z.
Proof.
  intros Hlo Hhi.
  pose proof (Qfloor_le q) as Hf1. pose proof (Qlt_floor q) as Hf2.
  rewrite inject_Z_plus in Hf2. change (inject_Z 1) with 1 in Hf2.
  assert (H1 : inject_Z z < inject_Z (Qfloor q + 1))
    by (rewrite inject_Z_plus; change (inject_Z 1) with 1; lra).
  assert (H2 : inject_Z (Qfloor q) < inject_Z (z + 1))
    by (rewrite inject_Z_plus; change (inject_Z 1) with 1; lra).
  rewrite <- Zlt_Qlt in H1, H2. lia.
Qed.

Lemma ltb_comp (x x' y y' : Q) :
  x == x' -> y == y' -> (x <? y) = (x' <? y').
Proof.
  intros Hx Hy. unfold Num.ltb. f_equal. apply Qleb_comp; assumption.
Qed.

(** [mod (a, 360)] lies in [0, 360). *)
Lemma mod_range (a : Q) : 0 <= Num.mod_ a 360 /\ Num.mod_ a 360 < 360.
Proof.
  unfold Num.mod_, Num.floor.
  pose proof (Qfloor_le (a / 360)) as H1.
  pose proof (Qlt_floor (a / 360)) as H2.
  rewrite inject_Z_plus in H2. change (inject_Z 1) with 1 in H2.
  split; qlra.
Qed.

(** [a % 360] is [a] minus a whole number of turns, and has the sign of
    [a]. *)
Lemma rem_spec (a : Q) :
  exists k : Z,
    a rem 360 == a - 360 * inject_Z k
    /\ ((0 <= a /\ 0 <= a rem 360 /\ a rem 360 < 360)
        \/ (a < 0 /\ -360 < a rem 360 /\ a rem 360 <= 0)).
Proof.
  exists (Num.trunc (a / 360)). split; [reflexivity|].
  unfold Num.rem, Num.trunc. qcase.
  - right.
    pose proof (Qle_ceiling (a / 360)) as H1.
    pose proof (Qceiling_lt (a / 360)) as H2.
    unfold Z.sub in H2. rewrite inject_Z_plus, inject_Z_opp in H2.
    change (inject_Z 1) with 1 in H2.
    repeat split; qlra.
  - left.
    pose proof (Qfloor_le (a / 360)) as H1.
    pose proof (Qlt_floor (a / 360)) as H2.
    rewrite inject_Z_plus in H2. change (inject_Z 1) with 1 in H2.
    repeat split; qlra.
Qed.

(** A whole number of turns smaller than one turn is no turn. *)
Lemma turns_zero (j : Z) :
  -360 < 360 * inject_Z j -> 360 * inject_Z j < 360 -> j = 0%Z.
Proof.
  intros H1 H2.
  assert (Ha : inject_Z (-1) < inject_Z j)
    by (change (inject_Z (-1)) with (-1); lra).
  assert (Hb : inject_Z j < inject_Z 1)
    by (change (inject_Z 1) with 1; lra).
  rewrite <- Zlt_Qlt in Ha, Hb. lia.
Qed.

(** ** The colour conversions *)

(** Case analysis on a comparison of numbers whose operands contain no
    conditional, followed by the reduction of the conditionals decided. *)
Ltac if_free t :=
  lazymatch t with
  | context [if _ then _ else _] => fail
  | _ => idtac
  end.

Ltac qcases :=
  match goal with
  | |- context [Num.ltb ?a ?b] =>
      if_free a; if_free b;
      let E := fresh "E" in
      destruct (Num.ltb a b) eqn:E; [apply ltb_lt in E | apply ltb_ge in E]
  end;
  cbv iota.

(** The shader's helper and the canvas helper are the same function. *)
Lemma shader_hue2rgb_canvas (p q t : Q) :
  Shader.hue2rgb p q t = Canvas.hue2rgb p q t.
Proof. reflexivity. Qed.

Lemma hue2rgb_comp (p p' q q' t t' : Q) :
  p == p' -> q == q' -> t == t' ->
  Canvas.hue2rgb p q t == Canvas.hue2rgb p' q' t'.
Proof.
  intros Hp Hq Ht. unfold Canvas.hue2rgb. cbv zeta.
  rewrite (ltb_comp t t' 0 0 Ht) by reflexivity.
  destruct (t' <? 0).
  - rewrite (ltb_comp 1 1 (t + 1) (t' + 1)) by (rewrite ?Ht; reflexivity).
    destruct (t' + 1 >? 1).
    + rewrite !(ltb_comp (t + 1 - 1) (t' + 1 - 1) _ _)
        by (rewrite ?Ht; reflexivity).
      repeat (destruct (Num.ltb _ _)); rewrite ?Hp, ?Hq, ?Ht; reflexivity.
    + rewrite !(ltb_comp (t + 1) (t' + 1) _ _)
        by (rewrite ?Ht; reflexivity).
      repeat (destruct (Num.ltb _ _)); rewrite ?Hp, ?Hq, ?Ht; reflexivity.
  - rewrite (ltb_comp 1 1 t t') by (rewrite ?Ht; reflexivity).
    destruct (t' >? 1).
    + rewrite !(ltb_comp (t - 1) (t' - 1) _ _)
        by (rewrite ?Ht; reflexivity).
      repeat (destruct (Num.ltb _ _)); rewrite ?Hp, ?Hq, ?Ht; reflexivity.
    + rewrite !(ltb_comp t t' _ _) by (rewrite ?Ht; reflexivity).
      repeat (destruct (Num.ltb _ _)); rewrite ?Hp, ?Hq, ?Ht; reflexivity.
Qed.

Lemma Math_round_comp (x y : Q) : x == y -> Num.Math_round x = Num.Math_round y.
Proof.
  intros H. unfold Num.Math_round. apply Qfloor_comp. rewrite H. reflexivity.
Qed.

(** A value below one half is stored as the byte 0. *)
Lemma clamp_round_small (x : Q) :
  x < 1 / 2 -> Num.toUint8Clamp (Num.Math_round x) = 0%Z.
Proof.
  intros Hx. unfold Num.toUint8Clamp, Num.Math_round.
  pose proof (Qfloor_le (x + 1 / 2)) as Hf.
  assert (H1 : inject_Z (Qfloor (x + 1 / 2)) < inject_Z 1)
    by (change (inject_Z 1) with 1; qlra).
  rewrite <- Zlt_Qlt in H1. lia.
Qed.

(** The byte of one channel, as a function of the argument [t] that
    [hslToRgb] passes to [hue2rgb], for saturation 1 and lightness 0.5
    (where [p = 0] and [q = 1]). *)
Lemma channel_byte_shift (t : Q) :
  - (4 / 3) < t -> t < 1 / 3 ->
  Num.toUint8Clamp (Num.Math_round (Canvas.hue2rgb 0 1 t * 255))
  = Num.toUint8Clamp (Num.Math_round (Canvas.hue2rgb 0 1 (t + 1) * 255)).
Proof.
  intros Hlo Hhi. unfold Canvas.hue2rgb. cbv zeta.
  repeat qcases;
    try (exfalso; qlra);
    first
      [ reflexivity
      | f_equal; apply Math_round_comp; qlra
      | rewrite !clamp_round_small by qlra; reflexivity ].
Qed.

Lemma times_comp (a b c : Q) : a == b -> a * c == b * c.
Proof. intros H. rewrite H. reflexivity. Qed.

Lemma channel_byte_comp (t t' : Q) :
  t == t' ->
  Num.toUint8Clamp (Num.Math_round (Canvas.hue2rgb 0 1 t * 255))
  = Num.toUint8Clamp (Num.Math_round (Canvas.hue2rgb 0 1 t' * 255)).
Proof.
  intros Ht. f_equal. apply Math_round_comp.
  rewrite (hue2rgb_comp 0 0 1 1 t t') by (assumption || reflexivity).
  reflexivity.
Qed.

(** The three channels [hslToRgb] computes for saturation 1 and lightness
    0.5. *)
Lemma canvas_channels (h : Q) :
  Canvas.r (Canvas.hslToRgb h 1 0.5)
  = Num.Math_round (Canvas.hue2rgb 0 1 (h + 1 / 3) * 255)
  /\ Canvas.g (Canvas.hslToRgb h 1 0.5)
     = Num.Math_round (Canvas.hue2rgb 0 1 h * 255)
  /\ Canvas.b (Canvas.hslToRgb h 1 0.5)
     = Num.Math_round (Canvas.hue2rgb 0 1 (h - 1 / 3) * 255).
Proof.
  unfold Canvas.hslToRgb. cbv zeta. cbn [Canvas.r Canvas.g Canvas.b].
  change (0.5 <? 0.5) with false. cbv iota.
  repeat split; apply Math_round_comp; apply times_comp;
    apply hue2rgb_comp; reflexivity.
Qed.

Lemma shader_channels (h : Q) :
  v3x (Shader.hsl2rgb h 1 0.5) == Canvas.hue2rgb 0 1 (h + 1 / 3)
  /\ v3y (Shader.hsl2rgb h 1 0.5) == Canvas.hue2rgb 0 1 h
  /\ v3z (Shader.hsl2rgb h 1 0.5) == Canvas.hue2rgb 0 1 (h - 1 / 3).
Proof.
  unfold Shader.hsl2rgb. cbv zeta. cbn [v3x v3y v3z].
  change (0.5 <? 0.5) with false. cbv iota.
  rewrite !shader_hue2rgb_canvas.
  repeat split; apply hue2rgb_comp; reflexivity.
Qed.

(** At saturation 1 and lightness 0.5 some channel is at full intensity,
    whatever the hue in [0, 1). *)
Lemma full_channel (h : Q) :
  0 <= h -> h < 1 ->
  Canvas.hue2rgb 0 1 (h + 1 / 3) == 1
  \/ Canvas.hue2rgb 0 1 h == 1
  \/ Canvas.hue2rgb 0 1 (h - 1 / 3) == 1.
Proof.
  intros H0 H1.
  destruct (Qlt_le_dec h (1 / 6)) as [Ha | Ha];
    [left | destruct (Qlt_le_dec h (1 / 2)) as [Hb | Hb];
            [right; left | destruct (Qlt_le_dec h (5 / 6)) as [Hc | Hc];
                           [right; right | left]]];
    unfold Canvas.hue2rgb; cbv zeta;
    repeat qcases; try (exfalso; qlra); reflexivity.
Qed.

Lemma full_byte (t : Q) :
  Canvas.hue2rgb 0 1 t == 1 ->
  Num.toUint8Clamp (Num.Math_round (Canvas.hue2rgb 0 1 t * 255)) = 255%Z.
Proof.
  intros H.
  rewrite (Math_round_comp _ (1 * 255)) by (rewrite H; reflexivity).
  reflexivity.
Qed.

(** The bytes of a pixel never spell black when the hue is within one turn
    of zero. *)
Lemma canvas_bytes_not_black (h : Q) :
  -1 < h -> h < 1 ->
  (Num.toUint8Clamp (Canvas.r (Canvas.hslToRgb h 1 0.5)),
   Num.toUint8Clamp (Canvas.g (Canvas.hslToRgb h 1 0.5)),
   Num.toUint8Clamp (Canvas.b (Canvas.hslToRgb h 1 0.5)))
  <> (0%Z, 0%Z, 0%Z).
Proof.
  intros Hlo Hhi.
  destruct (canvas_channels h) as [-> [-> ->]].
  assert (Hfull : exists h', 0 <= h' /\ h' < 1 /\
            (h' == h \/ (h < 0 /\ h' == h + 1))).
  { destruct (Qlt_le_dec h 0) as [Hneg | Hpos].
    - exists (h + 1).
      split; [lra | split; [lra | right; split; [lra | reflexivity]]].
    - exists h. split; [lra | split; [lra | left; reflexivity]]. }
  destruct Hfull as [h' [H0 [H1 Hrel]]].
  assert (Hr : Num.toUint8Clamp (Num.Math_round (Canvas.hue2rgb 0 1 (h + 1 / 3) * 255))
               = Num.toUint8Clamp (Num.Math_round (Canvas.hue2rgb 0 1 (h' + 1 / 3) * 255))).
  { destruct Hrel as [He | [Hneg He]].
    - apply channel_byte_comp. rewrite He. reflexivity.
    - rewrite channel_byte_shift by qlra.
      apply channel_byte_comp. rewrite He. ring. }
  assert (Hg : Num.toUint8Clamp (Num.Math_round (Canvas.hue2rgb 0 1 h * 255))
               = Num.toUint8Clamp (Num.Math_round (Canvas.hue2rgb 0 1 h' * 255))).
  { destruct Hrel as [He | [Hneg He]].
    - apply channel_byte_comp. rewrite He. reflexivity.
    - rewrite channel_byte_shift by qlra.
      apply channel_byte_comp. rewrite He. ring. }
  assert (Hb : Num.toUint8Clamp (Num.Math_round (Canvas.hue2rgb 0 1 (h - 1 / 3) * 255))
               = Num.toUint8Clamp (Num.Math_round (Canvas.hue2rgb 0 1 (h' - 1 / 3) * 255))).
  { destruct Hrel as [He | [Hneg He]].
    - apply channel_byte_comp. rewrite He. reflexivity.
    - rewrite channel_byte_shift by qlra.
      apply channel_byte_comp. rewrite He. ring. }
  rewrite Hr, Hg, Hb.
  destruct (full_channel h' H0 H1) as [Hf | [Hf | Hf]];
    apply full_byte in Hf; rewrite Hf; intros Heq; inversion Heq.
Qed.

(** The canvas hue is less than one turn away from zero. *)
Lemma canvas_hue_range (iter maxIter : Z) (hueShift : Q) :
  -1 < Canvas.hue_degrees iter maxIter hueShift / 360
  /\ Canvas.hue_degrees iter maxIter hueShift / 360 < 1.
Proof.
  unfold Canvas.hue_degrees. cbv zeta.
  destruct (rem_spec (inject_Z iter / inject_Z maxIter * 360 + hueShift))
    as [k [_ [[_ [H0 H1]] | [_ [H0 H1]]]]]; split; qlra.
Qed.

(** C7.  On the canvas a negative hue shift and the same shift plus 360
    give different colours.  For an iteration count 1 under cap 500 (the
    count of the sample (3, 0)) and hue shift -300 the operator [%] leaves
    the hue at -299.28, and [hslToRgb], which adds at most one turn to its
    argument, returns red 252, green 255 and blue -252; for the hue shift
    60 it returns red 252, green 255 and blue 0.  Only the clamping of the
    byte array makes the stored bytes of this pixel the same. *)
Theorem C7_negative_hue_shift_changes_the_colour :
  it_iter (Canvas.escape_time 500 3 0) = 1%Z
  /\ Canvas.hue_degrees 1 500 (-300) == -299.28
  /\ Canvas.hue_degrees 1 500 (-300 + 360) == 60.72
  /\ Canvas.color 1 500 (-300) = Canvas.mkRgb 252 255 (-252)
  /\ Canvas.color 1 500 (-300 + 360) = Canvas.mkRgb 252 255 0
  /\ Canvas.color 1 500 (-300) <> Canvas.color 1 500 (-300 + 360)
  /\ Canvas.pixel_bytes 1 500 (-300) = (252, 255, 0)%Z
  /\ Canvas.pixel_bytes 1 500 (-300 + 360) = (252, 255, 0)%Z.
Proof.
  repeat split; try (vm_compute; reflexivity).
  vm_compute. discriminate.
Qed.

(** C4.  In the shader the hue after [mod] lies in [0, 360) for every
    hue shift.  On the canvas [%] keeps the sign of its dividend: for the
    sample (3, 0), which escapes at the first update, with cap 500 and hue
    shift -90 the hue is -89.28. *)
Theorem C4_canvas_hue_negative :
  (forall (iter uMaxIter : Z) (uHueShift : Q),
     uMaxIter <> 0%Z ->
     0 <= Shader.hue_degrees iter uMaxIter uHueShift
     /\ Shader.hue_degrees iter uMaxIter uHueShift < 360)
  /\ it_iter (Canvas.escape_time 500 3 0) = 1%Z
  /\ Canvas.hue_degrees 1 500 (-90) == -89.28
  /\ Canvas.hue_degrees 1 500 (-90) < 0.
Proof.
  split; [|split; [|split]].
  - intros iter uMaxIter uHueShift _. unfold Shader.hue_degrees. cbv zeta.
    apply mod_range.
  - vm_compute. reflexivity.
  - vm_compute. reflexivity.
  - vm_compute. reflexivity.
Qed.

(** The shader's colour stage does answer black when it is handed
    [iter = uMaxIter]. *)
Lemma shader_color_black_at_cap (uMaxIter : Z) (uHueShift : Q) :
  Shader.color uMaxIter uMaxIter uHueShift = Vec4 0 0 0 1.
Proof. unfold Shader.color. rewrite Z.eqb_refl. reflexivity. Qed.

(** The shader colours a sample that never escapes by the hue shift alone,
    and some channel is at full intensity. *)
Lemma shader_inside_not_black (uMaxIter : Z) (uHueShift x0 y0 : Q) :
  uMaxIter <> 0%Z ->
  x0 * x0 + y0 * y0 <= 1 / 16 ->
  let c := Shader.color (it_iter (Shader.iterate uMaxIter x0 y0))
             uMaxIter uHueShift in
  ~ (v4x c == 0 /\ v4y c == 0 /\ v4z c == 0).
Proof.
  intros Hm Hc. cbv zeta. rewrite shader_iterate_bounded by assumption.
  unfold Shader.color.
  replace (0 =? uMaxIter)%Z with false by (symmetry; apply Z.eqb_neq; lia).
  cbv zeta. cbn [v4x v4y v4z].
  destruct (shader_channels (Shader.hue_degrees 0 uMaxIter uHueShift / 360))
    as [-> [-> ->]].
  destruct (mod_range (inject_Z 0 / inject_Z uMaxIter * 360 + uHueShift))
    as [H0 H1].
  fold (Shader.hue_degrees 0 uMaxIter uHueShift) in H0, H1.
  destruct (full_channel (Shader.hue_degrees 0 uMaxIter uHueShift / 360))
    as [Hf | [Hf | Hf]]; try qlra;
    intros [Hr [Hg Hb]]; rewrite Hf in *; discriminate.
Qed.

(** C1, as the code has it.  Neither path colours the points that do not
    escape black.  The canvas routine has no branch for them and never
    stores a black pixel at all, whatever the iteration count.  The shader
    tests [iter == uMaxIter], but its loop leaves [iter] at 0 when the cap
    is reached, so a sample that never escapes (here: any sample in the disc
    of radius 1/4) is coloured like one that escaped at iteration 0.  Both
    are evaluated at a concrete pixel, which comes out pure red: the
    canvas at the origin, the shader, with the uniforms of a frame at
    scale 1, at a fragment next to the origin. *)
Theorem C1_inside_not_black :
  (forall (iter maxIter : Z) (hueShift : Q),
     maxIter <> 0%Z ->
     Canvas.pixel_bytes iter maxIter hueShift <> (0, 0, 0)%Z)
  /\ (forall (u : Shader.Uniforms) (frag : vec2),
        Shader.uMaxIter u <> 0%Z ->
        fst (Shader.sample u frag) * fst (Shader.sample u frag)
        + snd (Shader.sample u frag) * snd (Shader.sample u frag) <= 1 / 16 ->
        ~ (v4x (Shader.main u frag) == 0
           /\ v4y (Shader.main u frag) == 0
           /\ v4z (Shader.main u frag) == 0))
  /\ it_iter (Canvas.escape_time 50 0 0) = 50%Z
  /\ Canvas.presented
       (Canvas.renderMandelbrot (Canvas.mkCtx []) 1 1 0 1 0 1 50 0)
     = Some [255; 0; 0; 255]%Z
  /\ vec4_eq
       (Shader.main
          (Shader.mkUniforms 1 0 (Vec2 800 600) (Vec2 (-0.7491) 0.1) 500)
          (Vec2 571.5 277.5))
       (Vec4 1 0 0 1).
Proof.
  split; [|split; [|split; [|split]]].
  - intros iter maxIter hueShift _. unfold Canvas.pixel_bytes, Canvas.color.
    cbv zeta. apply canvas_bytes_not_black; apply canvas_hue_range.
  - intros u frag Hm Hc. unfold Shader.main.
    destruct (Shader.sample u frag) as [x0 y0]. cbn [fst snd] in Hc.
    apply (shader_inside_not_black _ _ _ _ Hm Hc).
  - vm_compute. reflexivity.
  - vm_compute. reflexivity.
  - unfold Shader.main.
    destruct (Shader.sample _ _) as [x0 y0] eqn:Hs.
    vm_compute in Hs. injection Hs as <- <-.
    rewrite shader_iterate_bounded by (vm_compute; discriminate).
    vm_compute. repeat split; reflexivity.
Qed.

(** ** The frames of the animation *)

(** The hue shift the component keeps stays in [0, 360). *)
Lemma hue_after_range (n : nat) :
  0 <= Viewer.hue_after n /\ Viewer.hue_after n < 360.
Proof.
  induction n as [|n [IH0 IH1]].
  - unfold Viewer.hue_after, Viewer.initial_hueShift. split; lra.
  - cbn [Viewer.hue_after]. unfold Viewer.hue_update.
    destruct (rem_spec (Viewer.hue_after n + Viewer.colorSpeed))
      as [k [_ [[_ [H0 H1]] | [Hneg _]]]].
    + split; assumption.
    + exfalso. unfold Viewer.colorSpeed in Hneg. lra.
Qed.

(** As long as the scale is not reset it grows by at least one half per
    update. *)
Lemma scale_resets_or_grows (n : nat) :
  (exists k : nat, Viewer.scale_after (S k) = 1)
  \/ 100 + inject_Z (Z.of_nat n) * (1 / 2) <= Viewer.scale_after n.
Proof.
  induction n as [|n [IH | IH]].
  - right. unfold Viewer.scale_after, Viewer.initial_scale.
    change (inject_Z (Z.of_nat 0)) with 0. lra.
  - left. exact IH.
  - destruct (scale_update_cases (Viewer.scale_after n)) as [[_ Hb] | [_ Hb]].
    + right. rewrite scale_after_succ, Hb.
      rewrite Nat2Z.inj_succ. unfold Z.succ. rewrite inject_Z_plus.
      change (inject_Z 1) with 1.
      assert (0 <= inject_Z (Z.of_nat n))
        by (change 0 with (inject_Z 0); rewrite <- Zle_Qle; lia).
      unfold Viewer.zoomSpeed. qlra.
    + left. exists n. rewrite scale_after_succ. exact Hb.
Qed.

(** The zoom does reach the ceiling: at some update the scale is reset
    to 1. *)
Lemma scale_eventually_resets : exists k : nat, Viewer.scale_after (S k) = 1.
Proof.
  destruct (scale_resets_or_grows (Z.to_nat 2000000)) as [Hreset | Hgrow];
    [exact Hreset | exfalso].
  destruct (scale_after_bounds (Z.to_nat 2000000)) as [_ Hlt].
  rewrite Z2Nat.id in Hgrow by lia.
  change (inject_Z 2000000) with 2000000 in Hgrow.
  pose proof MAX_SCALE_value as HM. qlra.
Qed.

(** The spec's example: at scale 1 the iteration cap is 500. *)
Lemma dynamicMaxIter_at_1 : Viewer.dynamicMaxIter 1 = 500%Z.
Proof.
  unfold Viewer.dynamicMaxIter, Num.Math_floor, Num.Math_log.
  rewrite RMicromega.Q2R_1, ln_1.
  replace (500 + 100 * 0)%R with (IZR 500) by Lra.lra.
  apply ZfloorZ.
Qed.

(** The uniforms [render] uploads at scale 1 on a canvas of 800 by 600
    pixels: those at which C1 evaluates the shader. *)
Lemma frame_uniforms_at_scale_1 (hueShift : Q) :
  Viewer.frame_uniforms 800 600 1 hueShift
  = Shader.mkUniforms 1 hueShift (Vec2 800 600) (Vec2 (-0.7491) 0.1) 500.
Proof.
  unfold Viewer.frame_uniforms. rewrite dynamicMaxIter_at_1. reflexivity.
Qed.

(** ** The pixel buffer *)

Lemma store_length (data : Canvas.Uint8ClampedArray) (idx v : Z) :
  length (Canvas.store data idx v) = length data.
Proof.
  unfold Canvas.store. destruct (idx <? 0)%Z; [reflexivity|].
  apply length_insert.
Qed.

Lemma store_lookup_eq (data : Canvas.Uint8ClampedArray) (idx v : Z) :
  (0 <= idx < Z.of_nat (length data))%Z ->
  Canvas.store data idx v !! Z.to_nat idx = Some (Num.toUint8Clamp v).
Proof.
  intros H. unfold Canvas.store.
  replace (idx <? 0)%Z with false by (symmetry; apply Z.ltb_ge; lia).
  apply list_lookup_insert_eq. lia.
Qed.

Lemma store_lookup_ne (data : Canvas.Uint8ClampedArray) (idx v : Z) (j : nat) :
  Z.of_nat j <> idx ->
  Canvas.store data idx v !! j = data !! j.
Proof.
  intros H. unfold Canvas.store. destruct (idx <? 0)%Z eqn:E; [reflexivity|].
  apply Z.ltb_ge in E. apply list_lookup_insert_ne. lia.
Qed.

(** Pixel numbers [py * width + px] are below [width * height] and
    determine the pixel. *)
Lemma pixel_number_bound (width height px py : Z) :
  (0 <= px < width)%Z -> (0 <= py < height)%Z ->
  (0 <= py * width + px < width * height)%Z.
Proof.
  intros Hpx Hpy.
  assert (0 <= (height - 1 - py) * width)%Z by nia.
  assert (0 <= py * width)%Z by nia.
  lia.
Qed.

Lemma pixel_number_inj (width px py px' py' : Z) :
  (0 <= px < width)%Z -> (0 <= px' < width)%Z ->
  (py * width + px = py' * width + px')%Z -> py = py' /\ px = px'.
Proof.
  intros Hpx Hpx' Heq.
  destruct (Z.lt_trichotomy py py') as [Hlt | [-> | Hgt]].
  - exfalso. assert (width <= (py' - py) * width)%Z by nia. lia.
  - split; [reflexivity | lia].
  - exfalso. assert (width <= (py - py') * width)%Z by nia. lia.
Qed.

(** The byte blocks of two different pixels are disjoint. *)
Lemma blocks_disjoint (width px py px' py' c : Z) :
  (0 <= px < width)%Z -> (0 <= px' < width)%Z -> (0 <= c < 4)%Z ->
  (py, px) <> (py', px') ->
  ((py * width + px) * 4 + c < (py' * width + px') * 4
   \/ (py' * width + px') * 4 + 4 <= (py * width + px) * 4 + c)%Z.
Proof.
  intros Hpx Hpx' Hc Hne.
  assert (Hn : (py * width + px <> py' * width + px')%Z).
  { intros Heq. apply Hne.
    destruct (pixel_number_inj width px py px' py' Hpx Hpx' Heq) as [-> ->].
    reflexivity. }
  lia.
Qed.

Section Buffer.

Variables (width height : Z) (xMin xMax yMin yMax : Q).
Variables (maxIter : Z) (hueShift : Q).

Let put := Canvas.put_pixel width height xMin xMax yMin yMax maxIter hueShift.
Let quad := pixel_quad width height xMin xMax yMin yMax maxIter hueShift.

Lemma put_pixel_length (data : Canvas.Uint8ClampedArray) (px py : Z) :
  length (put data px py) = length data.
Proof.
  unfold put, Canvas.put_pixel.
  destruct (Canvas.sample _ _ _ _ _ _ _ _) as [x0 y0]. cbv zeta.
  rewrite !store_length. reflexivity.
Qed.

(** A pixel's four bytes land at its index. *)
Lemma put_pixel_lookup_in (data : Canvas.Uint8ClampedArray) (px py c : Z) :
  (0 <= (py * width + px) * 4)%Z ->
  ((py * width + px) * 4 + 3 < Z.of_nat (length data))%Z ->
  (0 <= c < 4)%Z ->
  put data px py !! Z.to_nat ((py * width + px) * 4 + c)
  = quad px py !! Z.to_nat c.
Proof.
  intros H0 Hlen Hc. unfold put, quad, Canvas.put_pixel, pixel_quad.
  destruct (Canvas.sample _ _ _ _ _ _ _ _) as [x0 y0]. cbv zeta.
  unfold Canvas.pixel_bytes. cbv zeta.
  set (idx := ((py * width + px) * 4)%Z) in *.
  set (col := Canvas.color _ _ _).
  assert (Hcases : c = 0%Z \/ c = 1%Z \/ c = 2%Z \/ c = 3%Z) by lia.
  destruct Hcases as [-> | [-> | [-> | ->]]].
  - rewrite !store_lookup_ne by lia.
    replace (idx + 0)%Z with idx by lia.
    rewrite store_lookup_eq by lia. reflexivity.
  - rewrite !store_lookup_ne by lia.
    rewrite store_lookup_eq by (rewrite ?store_length; lia). reflexivity.
  - rewrite !store_lookup_ne by lia.
    rewrite store_lookup_eq by (rewrite ?store_length; lia). reflexivity.
  - rewrite store_lookup_eq by (rewrite ?store_length; lia). reflexivity.
Qed.

(** Nothing else is touched. *)
Lemma put_pixel_lookup_out (data : Canvas.Uint8ClampedArray) (px py : Z)
    (j : nat) :
  (Z.of_nat j < (py * width + px) * 4
   \/ (py * width + px) * 4 + 4 <= Z.of_nat j)%Z ->
  put data px py !! j = data !! j.
Proof.
  intros Hj. unfold put, Canvas.put_pixel.
  destruct (Canvas.sample _ _ _ _ _ _ _ _) as [x0 y0]. cbv zeta.
  rewrite !store_lookup_ne by lia. reflexivity.
Qed.

(** The inner loop, over the rows [ks] of column [px]. *)
Lemma column_length (ks : list Z) (data : Canvas.Uint8ClampedArray) (px : Z) :
  length (foldl (fun d py => put d px py) data ks) = length data.
Proof.
  revert data. induction ks as [|k ks IH]; intros data; [reflexivity|].
  cbn [foldl]. rewrite IH. apply put_pixel_length.
Qed.

Lemma column_lookup_out (ks : list Z) (data : Canvas.Uint8ClampedArray)
    (px : Z) (j : nat) :
  (forall k, k ∈ ks ->
     (Z.of_nat j < (k * width + px) * 4
      \/ (k * width + px) * 4 + 4 <= Z.of_nat j)%Z) ->
  foldl (fun d py => put d px py) data ks !! j = data !! j.
Proof.
  revert data. induction ks as [|k ks IH]; intros data Hout; [reflexivity|].
  cbn [foldl]. rewrite IH.
  - apply put_pixel_lookup_out. apply Hout. left.
  - intros k' Hk'. apply Hout. right. exact Hk'.
Qed.

Lemma column_lookup_in (ks : list Z) (data : Canvas.Uint8ClampedArray)
    (px py c : Z) :
  (0 < width)%Z -> (0 <= px < width)%Z ->
  (forall k, k ∈ ks -> 0 <= k < height)%Z ->
  Z.of_nat (length data) = (width * height * 4)%Z ->
  py ∈ ks -> (0 <= c < 4)%Z ->
  foldl (fun d py => put d px py) data ks
    !! Z.to_nat ((py * width + px) * 4 + c)
  = quad px py !! Z.to_nat c.
Proof.
  intros Hw Hpx Hks Hlen Hin Hc. revert data Hlen.
  induction ks as [|k ks IH] using rev_ind; intros data Hlen.
  - inversion Hin.
  - rewrite foldl_app. cbn [foldl].
    assert (Hk : (0 <= k < height)%Z)
      by (apply Hks, elem_of_app; right; left).
    destruct (decide (k = py)) as [-> | Hne].
    + pose proof (pixel_number_bound width height px py Hpx Hk) as Hb.
      apply put_pixel_lookup_in; rewrite ?column_length; lia.
    + rewrite put_pixel_lookup_out.
      2:{ rewrite Z2Nat.id.
          - apply blocks_disjoint; try assumption. congruence.
          - assert (Hpy : (0 <= py < height)%Z) by (apply Hks, Hin).
            pose proof (pixel_number_bound width height px py Hpx Hpy). lia. }
      apply IH; [| | exact Hlen].
      * intros k' Hk'. apply Hks, elem_of_app. left. exact Hk'.
      * apply elem_of_app in Hin as [Hin | Hin]; [exact Hin|].
        apply list_elem_of_singleton in Hin. congruence.
Qed.

(** The outer loop, over the columns [ps]. *)
Lemma columns_length (ps : list Z) (data : Canvas.Uint8ClampedArray) :
  length (foldl (fun d px => foldl (fun d py => put d px py) d (seqZ 0 height))
            data ps)
  = length data.
Proof.
  revert data. induction ps as [|p ps IH]; intros data; [reflexivity|].
  cbn [foldl]. rewrite IH. apply column_length.
Qed.

Lemma columns_lookup_in (ps : list Z) (data : Canvas.Uint8ClampedArray)
    (px py c : Z) :
  (0 < width)%Z ->
  (forall p, p ∈ ps -> 0 <= p < width)%Z ->
  Z.of_nat (length data) = (width * height * 4)%Z ->
  px ∈ ps -> (0 <= py < height)%Z -> (0 <= c < 4)%Z ->
  foldl (fun d px => foldl (fun d py => put d px py) d (seqZ 0 height))
    data ps
    !! Z.to_nat ((py * width + px) * 4 + c)
  = quad px py !! Z.to_nat c.
Proof.
  intros Hw Hps Hlen Hin Hpy Hc. revert data Hlen.
  induction ps as [|p ps IH] using rev_ind; intros data Hlen.
  - inversion Hin.
  - rewrite foldl_app. cbn [foldl].
    assert (Hp : (0 <= p < width)%Z)
      by (apply Hps, elem_of_app; right; left).
    assert (Hpx : (0 <= px < width)%Z) by (apply Hps, Hin).
    destruct (decide (p = px)) as [-> | Hne].
    + apply column_lookup_in; try assumption.
      * intros k Hk. apply elem_of_seqZ in Hk. lia.
      * rewrite columns_length. exact Hlen.
      * apply elem_of_seqZ. lia.
    + rewrite column_lookup_out.
      * apply IH; [| | exact Hlen].
        -- intros p' Hp'. apply Hps, elem_of_app. left. exact Hp'.
        -- apply elem_of_app in Hin as [Hin | Hin]; [exact Hin|].
           apply list_elem_of_singleton in Hin. congruence.
      * intros k Hk. apply elem_of_seqZ in Hk.
        pose proof (pixel_number_bound width height px py Hpx Hpy).
        rewrite Z2Nat.id by lia.
        apply blocks_disjoint; try assumption. congruence.
Qed.

(** Every byte of the buffer is written: pixel [(px, py)] holds its own
    four bytes at index [(py * width + px) * 4], whatever the buffer held
    before. *)
Lemma fill_lookup (data : Canvas.Uint8ClampedArray) (px py c : Z) :
  Z.of_nat (length data) = (width * height * 4)%Z ->
  (0 <= px < width)%Z -> (0 <= py < height)%Z -> (0 <= c < 4)%Z ->
  Canvas.fill width height xMin xMax yMin yMax maxIter hueShift data
    !! Z.to_nat ((py * width + px) * 4 + c)
  = quad px py !! Z.to_nat c.
Proof.
  intros Hlen Hpx Hpy Hc. unfold Canvas.fill.
  apply (columns_lookup_in (seqZ 0 width) data px py c);
    try assumption; try lia.
  - intros p Hp. apply elem_of_seqZ in Hp. lia.
  - apply elem_of_seqZ. lia.
Qed.

Lemma fill_length (data : Canvas.Uint8ClampedArray) :
  length (Canvas.fill width height xMin xMax yMin yMax maxIter hueShift data)
  = length data.
Proof. unfold Canvas.fill. apply columns_length. Qed.

End Buffer.

(** ** What the canvas routine presents *)

Lemma renderMandelbrot_presents (ctx : Canvas.CanvasRenderingContext2D)
    (width height : Z) (xMin xMax yMin yMax : Q) (maxIter : Z)
    (hueShift : Q) :
  Canvas.presented
    (Canvas.renderMandelbrot ctx width height xMin xMax yMin yMax maxIter
       hueShift)
  = Some (Canvas.fill width height xMin xMax yMin yMax maxIter hueShift
            (Canvas.createImageData width height)).
Proof.
  unfold Canvas.presented, Canvas.renderMandelbrot, Canvas.putImageData.
  cbn [Canvas.put_calls]. rewrite last_snoc. reflexivity.
Qed.

Lemma createImageData_length (width height : Z) :
  (0 <= width)%Z -> (0 <= height)%Z ->
  Z.of_nat (length (Canvas.createImageData width height))
  = (width * height * 4)%Z.
Proof.
  intros Hw Hh. unfold Canvas.createImageData.
  rewrite length_replicate. rewrite Z2Nat.id; [reflexivity | nia].
Qed.

(** The buffer [renderMandelbrot] presents holds, for every pixel, the four
    bytes R, G, B, 255 of that pixel at index [(py * width + px) * 4]. *)
Lemma renderMandelbrot_pixel (ctx : Canvas.CanvasRenderingContext2D)
    (width height : Z) (xMin xMax yMin yMax : Q) (maxIter : Z)
    (hueShift : Q) (px py c : Z) :
  (0 <= px < width)%Z -> (0 <= py < height)%Z -> (0 <= c < 4)%Z ->
  exists buffer : Canvas.Uint8ClampedArray,
    Canvas.presented
      (Canvas.renderMandelbrot ctx width height xMin xMax yMin yMax maxIter
         hueShift) = Some buffer
    /\ Z.of_nat (length buffer) = (width * height * 4)%Z
    /\ buffer !! Z.to_nat ((py * width + px) * 4 + c)
       = pixel_quad width height xMin xMax yMin yMax maxIter hueShift px py
           !! Z.to_nat c.
Proof.
  intros Hpx Hpy Hc. eexists. split; [apply renderMandelbrot_presents|].
  assert (Hlen : Z.of_nat (length (Canvas.createImageData width height))
                 = (width * height * 4)%Z)
    by (apply createImageData_length; lia).
  split.
  - rewrite fill_length. exact Hlen.
  - apply fill_lookup; assumption.
Qed.


(** * Further properties of the code *)

(** ** The escape-time loops *)

Lemma while_loop_iter_range (fuel : nat) :
  forall (m : Z) (x0 y0 : Q) (st : IterState),
    (it_iter st <= it_iter (Canvas.while_loop fuel m x0 y0 st)
     <= Z.max (it_iter st) m)%Z.
Proof.
  induction fuel as [|fuel IH]; intros m x0 y0 st; cbn [Canvas.while_loop].
  - lia.
  - destruct (it_x st * it_x st + it_y st * it_y st <=? 4); cbn [andb];
      [|lia].
    destruct (it_iter st <? m)%Z eqn:Hlt; [|lia].
    apply Z.ltb_lt in Hlt.
    match goal with
    | |- context [Canvas.while_loop fuel m x0 y0 ?st'] =>
        specialize (IH m x0 y0 st')
    end.
    cbn [it_iter] in IH. lia.
Qed.

(** X1.  What the canvas loop's count means.  For a cap [maxIter >= 0] the
    count lies in [0, maxIter]; a count below the cap means the iterate left
    the disc of radius 2, and an iterate still inside it means the count
    reached the cap. *)
Theorem X1_canvas_count_meaning (maxIter : Z) (x0 y0 : Q) :
  (0 <= maxIter)%Z ->
  (0 <= it_iter (Canvas.escape_time maxIter x0 y0) <= maxIter)%Z
  /\ ((it_iter (Canvas.escape_time maxIter x0 y0) < maxIter)%Z ->
      4 < it_x (Canvas.escape_time maxIter x0 y0)
          * it_x (Canvas.escape_time maxIter x0 y0)
          + it_y (Canvas.escape_time maxIter x0 y0)
            * it_y (Canvas.escape_time maxIter x0 y0))
  /\ (it_x (Canvas.escape_time maxIter x0 y0)
      * it_x (Canvas.escape_time maxIter x0 y0)
      + it_y (Canvas.escape_time maxIter x0 y0)
        * it_y (Canvas.escape_time maxIter x0 y0) <= 4 ->
      it_iter (Canvas.escape_time maxIter x0 y0) = maxIter).
Proof.
  intros Hm.
  pose proof (while_loop_iter_range (Z.to_nat maxIter) maxIter x0 y0
                (mkIter 0 0 0)) as Hrange.
  fold (Canvas.escape_time maxIter x0 y0) in Hrange. cbn [it_iter] in Hrange.
  pose proof (escape_time_exits maxIter x0 y0) as Hexit.
  unfold Canvas.continues in Hexit. apply andb_false_iff in Hexit.
  split; [lia|]. split.
  - intros Hlt. destruct Hexit as [Hmag | Hcap].
    + apply leb_gt in Hmag. exact Hmag.
    + apply Z.ltb_ge in Hcap. lia.
  - intros Hin. destruct Hexit as [Hmag | Hcap].
    + apply leb_gt in Hmag. exfalso. lra.
    + apply Z.ltb_ge in Hcap. lia.
Qed.

Lemma X1_witness :
  (0 <= 5)%Z /\
  ((0 <= it_iter (Canvas.escape_time 5 2 0) <= 5)%Z
   /\ ((it_iter (Canvas.escape_time 5 2 0) < 5)%Z ->
       4 < it_x (Canvas.escape_time 5 2 0) * it_x (Canvas.escape_time 5 2 0)
           + it_y (Canvas.escape_time 5 2 0) * it_y (Canvas.escape_time 5 2 0))
   /\ (it_x (Canvas.escape_time 5 2 0) * it_x (Canvas.escape_time 5 2 0)
       + it_y (Canvas.escape_time 5 2 0) * it_y (Canvas.escape_time 5 2 0) <= 4 ->
       it_iter (Canvas.escape_time 5 2 0) = 5%Z)).
Proof.
  split; [lia | apply (X1_canvas_count_meaning 5 2 0); lia].
Defined.

(** X2.  A sample well outside the disc of radius 2 escapes at the first
    update: when [x0 * x0 + y0 * y0] is at least 5 (so that the outcome of
    the test against 4 does not hang on the rounding of the sum), for every
    cap of at least 1 the canvas loop counts 1, the shader records index 0,
    and both stop at the sample itself. *)
Theorem X2_far_sample_escapes_at_once (maxIter : Z) (x0 y0 : Q) :
  (1 <= maxIter)%Z ->
  5 <= x0 * x0 + y0 * y0 ->
  (it_iter (Canvas.escape_time maxIter x0 y0) = 1%Z
   /\ it_x (Canvas.escape_time maxIter x0 y0) == x0
   /\ it_y (Canvas.escape_time maxIter x0 y0) == y0)
  /\ (it_iter (Shader.iterate maxIter x0 y0) = 0%Z
      /\ it_x (Shader.iterate maxIter x0 y0) == x0
      /\ it_y (Shader.iterate maxIter x0 y0) == y0).
Proof.
  intros Hm Hfar5.
  assert (Hfar : 4 < x0 * x0 + y0 * y0) by lra.
  assert (Hx : 0 * 0 - 0 * 0 + x0 == x0) by ring.
  assert (Hy : 2 * 0 * 0 + y0 == y0) by ring.
  assert (Hmag : 4 < (0 * 0 - 0 * 0 + x0) * (0 * 0 - 0 * 0 + x0)
                     + (2 * 0 * 0 + y0) * (2 * 0 * 0 + y0))
    by (rewrite Hx, Hy; exact Hfar).
  split.
  - unfold Canvas.escape_time.
    replace (Z.to_nat maxIter) with (S (Z.to_nat (maxIter - 1))) by lia.
    rewrite while_loop_step by (cbn [it_iter]; lia).
    cbn [it_x it_y it_iter].
    change (0 * 0 + 0 * 0 <=? 4) with true. cbv iota.
    destruct (Z.to_nat (maxIter - 1)) as [|fuel];
      cbn [Canvas.while_loop it_x it_y it_iter].
    + repeat split; [exact Hx | exact Hy].
    + replace ((0 * 0 - 0 * 0 + x0) * (0 * 0 - 0 * 0 + x0)
               + (2 * 0 * 0 + y0) * (2 * 0 * 0 + y0) <=? 4) with false
        by (symmetry; apply leb_gt; exact Hmag).
      cbn [andb it_x it_y it_iter]. repeat split; [exact Hx | exact Hy].
  - unfold Shader.iterate.
    replace (Z.to_nat Shader.LOOP_BOUND) with (S (Z.to_nat 19999))
      by (unfold Shader.LOOP_BOUND; lia).
    rewrite shader_loop_step by lia. cbn [it_x it_y it_iter]. cbv zeta.
    replace ((0 * 0 - 0 * 0 + x0) * (0 * 0 - 0 * 0 + x0)
             + (2 * 0 * 0 + y0) * (2 * 0 * 0 + y0) >? 4) with true
      by (symmetry; apply ltb_lt; exact Hmag).
    cbn [it_x it_y it_iter]. repeat split; [exact Hx | exact Hy].
Qed.

Lemma X2_witness :
  (1 <= 500)%Z /\ 5 <= 3 * 3 + (-1) * (-1) /\
  ((it_iter (Canvas.escape_time 500 3 (-1)) = 1%Z
    /\ it_x (Canvas.escape_time 500 3 (-1)) == 3
    /\ it_y (Canvas.escape_time 500 3 (-1)) == -1)
   /\ (it_iter (Shader.iterate 500 3 (-1)) = 0%Z
       /\ it_x (Shader.iterate 500 3 (-1)) == 3
       /\ it_y (Shader.iterate 500 3 (-1)) == -1)).
Proof.
  split; [lia|]. split; [discriminate|].
  apply (X2_far_sample_escapes_at_once 500 3 (-1)); [lia | discriminate].
Defined.

(** X3.  A sample in the disc of radius 1/4 never escapes: for every cap
    [maxIter >= 0] the canvas loop runs the full [maxIter] updates and its
    iterate stays in the disc of radius 1/2. *)
Theorem X3_near_sample_runs_to_cap (maxIter : Z) (x0 y0 : Q) :
  (0 <= maxIter)%Z ->
  x0 * x0 + y0 * y0 <= 1 / 16 ->
  it_iter (Canvas.escape_time maxIter x0 y0) = maxIter
  /\ it_x (Canvas.escape_time maxIter x0 y0)
     * it_x (Canvas.escape_time maxIter x0 y0)
     + it_y (Canvas.escape_time maxIter x0 y0)
       * it_y (Canvas.escape_time maxIter x0 y0) <= 1 / 4.
Proof.
  intros Hm Hc. unfold Canvas.escape_time.
  apply (while_loop_bounded (Z.to_nat maxIter) maxIter x0 y0 (mkIter 0 0 0)).
  - exact Hc.
  - cbn [it_x it_y]. qlra.
  - cbn [it_iter]. lia.
Qed.

Lemma X3_witness :
  (0 <= 3)%Z /\ (1 / 5) * (1 / 5) + (-1 / 10) * (-1 / 10) <= 1 / 16 /\
  (it_iter (Canvas.escape_time 3 (1 / 5) (-1 / 10)) = 3%Z
   /\ it_x (Canvas.escape_time 3 (1 / 5) (-1 / 10))
      * it_x (Canvas.escape_time 3 (1 / 5) (-1 / 10))
      + it_y (Canvas.escape_time 3 (1 / 5) (-1 / 10))
        * it_y (Canvas.escape_time 3 (1 / 5) (-1 / 10)) <= 1 / 4).
Proof.
  split; [lia|]. split; [vm_compute; discriminate|].
  apply (X3_near_sample_runs_to_cap 3 (1 / 5) (-1 / 10));
    [lia | vm_compute; discriminate].
Defined.

Lemma while_loop_cap_mono (fuel : nat) :
  forall (fuel' : nat) (m m' : Z) (x0 y0 : Q) (st : IterState),
    (m <= m')%Z -> (m' - it_iter st <= Z.of_nat fuel')%Z ->
    4 < it_x (Canvas.while_loop fuel m x0 y0 st)
        * it_x (Canvas.while_loop fuel m x0 y0 st)
        + it_y (Canvas.while_loop fuel m x0 y0 st)
          * it_y (Canvas.while_loop fuel m x0 y0 st) ->
    Canvas.while_loop fuel' m' x0 y0 st = Canvas.while_loop fuel m x0 y0 st.
Proof.
  induction fuel as [|fuel IH]; intros fuel' m m' x0 y0 st Hm Hfuel Hesc;
    cbn [Canvas.while_loop] in *.
  - destruct fuel' as [|fuel']; cbn [Canvas.while_loop]; [reflexivity|].
    replace (it_x st * it_x st + it_y st * it_y st <=? 4) with false
      by (symmetry; apply leb_gt; exact Hesc).
    reflexivity.
  - destruct (it_x st * it_x st + it_y st * it_y st <=? 4) eqn:Hmag;
      cbn [andb] in *.
    + destruct (it_iter st <? m)%Z eqn:Hlt.
      * apply Z.ltb_lt in Hlt. destruct fuel' as [|fuel']; [lia|].
        cbn [Canvas.while_loop]. rewrite Hmag.
        replace (it_iter st <? m')%Z with true
          by (symmetry; apply Z.ltb_lt; lia).
        cbn [andb]. apply IH; [exact Hm | cbn [it_iter]; lia | exact Hesc].
      * apply leb_le in Hmag. exfalso. lra.
    + destruct fuel' as [|fuel']; cbn [Canvas.while_loop]; [reflexivity|].
      rewrite Hmag. reflexivity.
Qed.


Lemma shader_iterate_unfold (m : Z) (x0 y0 : Q) :
  Shader.iterate m x0 y0
  = Shader.loop (Z.to_nat Shader.LOOP_BOUND) 0 m x0 y0 (mkIter 0 0 0).
Proof. reflexivity. Qed.



(** Mirror images: the same [x], opposite [y], the same counter. *)
Lemma while_loop_mirror (fuel : nat) :
  forall (m : Z) (x0 y0 : Q) (st st' : IterState),
    it_x st' == it_x st -> it_y st' == - it_y st ->
    it_iter st' = it_iter st ->
    it_x (Canvas.while_loop fuel m x0 (- y0) st')
    == it_x (Canvas.while_loop fuel m x0 y0 st)
    /\ it_y (Canvas.while_loop fuel m x0 (- y0) st')
       == - it_y (Canvas.while_loop fuel m x0 y0 st)
    /\ it_iter (Canvas.while_loop fuel m x0 (- y0) st')
       = it_iter (Canvas.while_loop fuel m x0 y0 st).
Proof.
  induction fuel as [|fuel IH]; intros m x0 y0 st st' Hx Hy Hi;
    cbn [Canvas.while_loop]; [repeat split; assumption|].
  assert (Hmag : it_x st' * it_x st' + it_y st' * it_y st'
                 == it_x st * it_x st + it_y st * it_y st)
    by (rewrite Hx, Hy; ring).
  unfold Num.leb. rewrite (Qleb_comp _ _ Hmag 4 4) by reflexivity.
  rewrite Hi.
  destruct (Qle_bool (it_x st * it_x st + it_y st * it_y st) 4
            && (it_iter st <? m)%Z); [|repeat split; assumption].
  apply IH; cbn [it_x it_y it_iter].
  - rewrite Hx, Hy. ring.
  - rewrite Hx, Hy. ring.
  - reflexivity.
Qed.

Lemma shader_loop_mirror (fuel : nat) :
  forall (i m : Z) (x0 y0 : Q) (st st' : IterState),
    it_x st' == it_x st -> it_y st' == - it_y st ->
    it_iter st' = it_iter st ->
    it_x (Shader.loop fuel i m x0 (- y0) st')
    == it_x (Shader.loop fuel i m x0 y0 st)
    /\ it_y (Shader.loop fuel i m x0 (- y0) st')
       == - it_y (Shader.loop fuel i m x0 y0 st)
    /\ it_iter (Shader.loop fuel i m x0 (- y0) st')
       = it_iter (Shader.loop fuel i m x0 y0 st).
Proof.
  induction fuel as [|fuel IH]; intros i m x0 y0 st st' Hx Hy Hi;
    cbn [Shader.loop]; [repeat split; assumption|].
  destruct (i >=? m)%Z; [repeat split; assumption|]. cbv zeta.
  assert (Hx' : it_x st' * it_x st' - it_y st' * it_y st' + x0
                == it_x st * it_x st - it_y st * it_y st + x0)
    by (rewrite Hx, Hy; ring).
  assert (Hy' : 2 * it_x st' * it_y st' + - y0
                == - (2 * it_x st * it_y st + y0))
    by (rewrite Hx, Hy; ring).
  rewrite (ltb_comp 4 4
             ((it_x st' * it_x st' - it_y st' * it_y st' + x0)
              * (it_x st' * it_x st' - it_y st' * it_y st' + x0)
              + (2 * it_x st' * it_y st' + - y0)
                * (2 * it_x st' * it_y st' + - y0))
             ((it_x st * it_x st - it_y st * it_y st + x0)
              * (it_x st * it_x st - it_y st * it_y st + x0)
              + (2 * it_x st * it_y st + y0)
                * (2 * it_x st * it_y st + y0)))
    by (try reflexivity; rewrite Hx', Hy'; ring).
  match goal with |- context [if ?b then _ else _] => destruct b end.
  - cbn [it_x it_y it_iter]. repeat split; assumption.
  - apply IH; cbn [it_x it_y it_iter]; [exact Hx' | exact Hy' | exact Hi].
Qed.

(** X5.  The evaluation is symmetric about the real axis: the samples
    [(x0, -y0)] and [(x0, y0)] get the same iteration count in the canvas
    loop and in the shader loop, and end in mirrored iterates. *)
Theorem X5_conjugate_symmetry (maxIter : Z) (x0 y0 : Q) :
  (it_iter (Canvas.escape_time maxIter x0 (- y0))
   = it_iter (Canvas.escape_time maxIter x0 y0)
   /\ it_x (Canvas.escape_time maxIter x0 (- y0))
      == it_x (Canvas.escape_time maxIter x0 y0)
   /\ it_y (Canvas.escape_time maxIter x0 (- y0))
      == - it_y (Canvas.escape_time maxIter x0 y0))
  /\ (it_iter (Shader.iterate maxIter x0 (- y0))
      = it_iter (Shader.iterate maxIter x0 y0)
      /\ it_x (Shader.iterate maxIter x0 (- y0))
         == it_x (Shader.iterate maxIter x0 y0)
      /\ it_y (Shader.iterate maxIter x0 (- y0))
         == - it_y (Shader.iterate maxIter x0 y0)).
Proof.
  assert (Hx0 : it_x (mkIter 0 0 0) == it_x (mkIter 0 0 0)) by reflexivity.
  assert (Hy0 : it_y (mkIter 0 0 0) == - it_y (mkIter 0 0 0)) by reflexivity.
  split.
  - unfold Canvas.escape_time.
    pose proof (while_loop_mirror (Z.to_nat maxIter) maxIter x0 y0
                  (mkIter 0 0 0) (mkIter 0 0 0) Hx0 Hy0 eq_refl)
      as [Hx [Hy Hi]].
    split; [exact Hi | split; [exact Hx | exact Hy]].
  - rewrite !shader_iterate_unfold.
    pose proof (shader_loop_mirror (Z.to_nat Shader.LOOP_BOUND) 0 maxIter
                  x0 y0 (mkIter 0 0 0) (mkIter 0 0 0) Hx0 Hy0 eq_refl)
      as [Hx [Hy Hi]].
    split; [exact Hi | split; [exact Hx | exact Hy]].
Qed.

(** The counter the shader loop returns is the one it started with, or the
    index of an executed turn below the cap. *)
Lemma shader_loop_iter (fuel : nat) :
  forall (i m : Z) (x0 y0 : Q) (st : IterState),
    it_iter (Shader.loop fuel i m x0 y0 st) = it_iter st
    \/ (i <= it_iter (Shader.loop fuel i m x0 y0 st) < m
        /\ it_iter (Shader.loop fuel i m x0 y0 st) < i + Z.of_nat fuel)%Z.
Proof.
  induction fuel as [|fuel IH]; intros i m x0 y0 st; cbn [Shader.loop];
    [left; reflexivity|].
  destruct (i >=? m)%Z eqn:Hcap; [left; reflexivity|].
  rewrite Z.geb_leb in Hcap. apply Z.leb_gt in Hcap. cbv zeta.
  match goal with |- context [if ?b then _ else _] => destruct b end.
  - right. cbn [it_iter]. lia.
  - match goal with
    | |- context [Shader.loop fuel ?i' m x0 y0 ?st'] =>
        destruct (IH i' m x0 y0 st') as [Hsame | Hidx]
    end.
    + left. rewrite Hsame. reflexivity.
    + right. lia.
Qed.

Lemma shader_iterate_below_cap (uMaxIter : Z) (x0 y0 : Q) :
  (0 <= it_iter (Shader.iterate uMaxIter x0 y0) < Shader.LOOP_BOUND)%Z
  /\ ((0 < uMaxIter)%Z ->
      (it_iter (Shader.iterate uMaxIter x0 y0) < uMaxIter)%Z).
Proof.
  unfold Shader.iterate.
  destruct (shader_loop_iter (Z.to_nat Shader.LOOP_BOUND) 0 uMaxIter x0 y0
              (mkIter 0 0 0)) as [Hsame | Hidx];
    cbn [it_iter] in *; unfold Shader.LOOP_BOUND in *; lia.
Qed.

(** X6.  The counter the shader's loop hands to the colour stage is never
    the cap: it lies in [0, 20000), and below [uMaxIter] when that is
    positive, so for [uMaxIter] other than 0 the test [iter == uMaxIter]
    of the colour stage is false for every sample. *)
Theorem X6_shader_count_never_the_cap (uMaxIter : Z) (x0 y0 : Q) :
  (0 <= it_iter (Shader.iterate uMaxIter x0 y0) < 20000)%Z
  /\ ((0 < uMaxIter)%Z ->
      (it_iter (Shader.iterate uMaxIter x0 y0) < uMaxIter)%Z)
  /\ (uMaxIter <> 0%Z ->
      (it_iter (Shader.iterate uMaxIter x0 y0) =? uMaxIter)%Z = false).
Proof.
  destruct (shader_iterate_below_cap uMaxIter x0 y0) as [Hrange Hcap].
  unfold Shader.LOOP_BOUND in Hrange.
  split; [exact Hrange|]. split; [exact Hcap|].
  intros Hne. apply Z.eqb_neq. lia.
Qed.

(** Off the branch [iter == uMaxIter] the colour stage writes a colour with
    a channel at full intensity. *)
Lemma shader_color_full_channel (iter uMaxIter : Z) (uHueShift : Q) :
  iter <> uMaxIter ->
  (v4x (Shader.color iter uMaxIter uHueShift) == 1
   \/ v4y (Shader.color iter uMaxIter uHueShift) == 1
   \/ v4z (Shader.color iter uMaxIter uHueShift) == 1)
  /\ v4w (Shader.color iter uMaxIter uHueShift) == 1.
Proof.
  intros Hne. unfold Shader.color.
  replace (iter =? uMaxIter)%Z with false
    by (symmetry; apply Z.eqb_neq; exact Hne).
  cbv zeta. cbn [v4x v4y v4z v4w].
  destruct (shader_channels
              (Shader.hue_degrees iter uMaxIter uHueShift / 360))
    as [-> [-> ->]].
  split; [|reflexivity].
  destruct (mod_range (inject_Z iter / inject_Z uMaxIter * 360 + uHueShift))
    as [H0 H1].
  fold (Shader.hue_degrees iter uMaxIter uHueShift) in H0, H1.
  apply full_channel; qlra.
Qed.

(** X7.  For a cap other than 0 the shader never writes black: whatever
    the uniforms and the fragment, one of the three colour channels of
    [gl_FragColor] is 1, and alpha is 1. *)
Theorem X7_shader_never_black (u : Shader.Uniforms) (frag : vec2) :
  Shader.uMaxIter u <> 0%Z ->
  (v4x (Shader.main u frag) == 1
   \/ v4y (Shader.main u frag) == 1
   \/ v4z (Shader.main u frag) == 1)
  /\ v4w (Shader.main u frag) == 1.
Proof.
  intros Hm. unfold Shader.main.
  destruct (Shader.sample u frag) as [x0 y0].
  destruct (shader_iterate_below_cap (Shader.uMaxIter u) x0 y0)
    as [Hrange Hcap].
  apply shader_color_full_channel. lia.
Qed.

Lemma X7_witness :
  960%Z <> 0%Z /\
  ((v4x (Shader.main
           (Shader.mkUniforms 100 30 (Vec2 800 600) (Vec2 (-0.7491) 0.1) 960)
           (Vec2 0.5 0.5)) == 1
    \/ v4y (Shader.main
              (Shader.mkUniforms 100 30 (Vec2 800 600) (Vec2 (-0.7491) 0.1) 960)
              (Vec2 0.5 0.5)) == 1
    \/ v4z (Shader.main
              (Shader.mkUniforms 100 30 (Vec2 800 600) (Vec2 (-0.7491) 0.1) 960)
              (Vec2 0.5 0.5)) == 1)
   /\ v4w (Shader.main
             (Shader.mkUniforms 100 30 (Vec2 800 600) (Vec2 (-0.7491) 0.1) 960)
             (Vec2 0.5 0.5)) == 1).
Proof.
  split; [discriminate|].
  apply (X7_shader_never_black
           (Shader.mkUniforms 100 30 (Vec2 800 600) (Vec2 (-0.7491) 0.1) 960)
           (Vec2 0.5 0.5)).
  discriminate.
Defined.

Lemma shader_loop_cap_unreached (fuel : nat) :
  forall (i m m' : Z) (x0 y0 : Q) (st : IterState),
    (i + Z.of_nat fuel <= m)%Z -> (i + Z.of_nat fuel <= m')%Z ->
    Shader.loop fuel i m x0 y0 st = Shader.loop fuel i m' x0 y0 st.
Proof.
  induction fuel as [|fuel IH]; intros i m m' x0 y0 st Hm Hm';
    cbn [Shader.loop]; [reflexivity|].
  replace (i >=? m)%Z with false
    by (symmetry; rewrite Z.geb_leb; apply Z.leb_gt; lia).
  replace (i >=? m')%Z with false
    by (symmetry; rewrite Z.geb_leb; apply Z.leb_gt; lia).
  cbv zeta.
  match goal with |- context [if ?b then _ else _] => destruct b end;
    [reflexivity|].
  apply IH; lia.
Qed.

(** X8.  A cap above the loop's constant bound is cut to it: for every
    [uMaxIter >= 20000] the shader computes exactly what it computes for
    [uMaxIter = 20000]. *)
Theorem X8_cap_above_bound_is_cut (uMaxIter : Z) (x0 y0 : Q) :
  (20000 <= uMaxIter)%Z ->
  Shader.iterate uMaxIter x0 y0 = Shader.iterate 20000 x0 y0.
Proof.
  intros Hm. unfold Shader.iterate.
  apply shader_loop_cap_unreached; unfold Shader.LOOP_BOUND; lia.
Qed.

Lemma X8_witness :
  (20000 <= 1000000)%Z /\
  Shader.iterate 1000000 (1 / 8) 0 = Shader.iterate 20000 (1 / 8) 0.
Proof.
  split; [lia | apply (X8_cap_above_bound_is_cut 1000000 (1 / 8) 0); lia].
Defined.

(** ** The colour conversions, for every argument *)

(** [hue2rgb] interpolates between [p] and [q] when its argument is at
    most one turn outside [0, 1]. *)
Lemma hue2rgb_between (p q t : Q) :
  p <= q -> -1 <= t -> t <= 2 ->
  p <= Canvas.hue2rgb p q t /\ Canvas.hue2rgb p q t <= q.
Proof.
  intros Hpq Hlo Hhi. unfold Canvas.hue2rgb. cbv zeta.
  repeat qcases; try (exfalso; qlra); split; qconst; nra.
Qed.

(** The two intermediate values of the conversion, for saturation and
    lightness in [0, 1]. *)
Lemma hsl_p_q (s l : Q) :
  0 <= s -> s <= 1 -> 0 <= l -> l <= 1 ->
  let q := if l <? 0.5 then l * (1 + s) else l + s - l * s in
  let p := 2 * l - q in
  0 <= p /\ p <= q /\ q <= 1.
Proof.
  intros Hs0 Hs1 Hl0 Hl1. cbv zeta.
  destruct (l <? 0.5) eqn:E; [apply ltb_lt in E | apply ltb_ge in E].
  - assert (E' : l < 1 / 2) by (qconst; lra). clear E. qconst.
    repeat split; nra.
  - assert (E' : 1 / 2 <= l) by (qconst; lra). clear E. qconst.
    repeat split; nra.
Qed.

Lemma round_byte (c : Q) :
  0 <= c -> c <= 1 ->
  (0 <= Num.Math_round (c * 255) <= 255)%Z.
Proof.
  intros H0 H1. unfold Num.Math_round.
  pose proof (Qfloor_le (c * 255 + 1 / 2)) as Hf1.
  pose proof (Qlt_floor (c * 255 + 1 / 2)) as Hf2.
  rewrite inject_Z_plus in Hf2. change (inject_Z 1) with 1 in Hf2.
  assert (Ha : inject_Z (-1) < inject_Z (Qfloor (c * 255 + 1 / 2)))
    by (change (inject_Z (-1)) with (-1); qlra).
  assert (Hb : inject_Z (Qfloor (c * 255 + 1 / 2)) < inject_Z 256)
    by (change (inject_Z 256) with 256; qlra).
  rewrite <- Zlt_Qlt in Ha, Hb. lia.
Qed.

(** X9.  For hue, saturation and lightness in [0, 1] the conversions stay
    in range: [hslToRgb] returns three integers in [0, 255], which the
    clamped array stores unchanged, and the shader's [hsl2rgb] returns
    three channels in [0, 1]. *)
Theorem X9_conversions_stay_in_range (h s l : Q) :
  0 <= h <= 1 -> 0 <= s <= 1 -> 0 <= l <= 1 ->
  ((0 <= Canvas.r (Canvas.hslToRgb h s l) <= 255)%Z
   /\ (0 <= Canvas.g (Canvas.hslToRgb h s l) <= 255)%Z
   /\ (0 <= Canvas.b (Canvas.hslToRgb h s l) <= 255)%Z)
  /\ (Num.toUint8Clamp (Canvas.r (Canvas.hslToRgb h s l))
      = Canvas.r (Canvas.hslToRgb h s l)
      /\ Num.toUint8Clamp (Canvas.g (Canvas.hslToRgb h s l))
         = Canvas.g (Canvas.hslToRgb h s l)
      /\ Num.toUint8Clamp (Canvas.b (Canvas.hslToRgb h s l))
         = Canvas.b (Canvas.hslToRgb h s l))
  /\ (0 <= v3x (Shader.hsl2rgb h s l) <= 1
      /\ 0 <= v3y (Shader.hsl2rgb h s l) <= 1
      /\ 0 <= v3z (Shader.hsl2rgb h s l) <= 1).
Proof.
  intros [Hh0 Hh1] [Hs0 Hs1] [Hl0 Hl1].
  pose proof (hsl_p_q s l Hs0 Hs1 Hl0 Hl1) as Hpq. cbv zeta in Hpq.
  unfold Canvas.hslToRgb, Shader.hsl2rgb, Num.toUint8Clamp. cbv zeta.
  cbn [Canvas.r Canvas.g Canvas.b v3x v3y v3z].
  change Shader.hue2rgb with Canvas.hue2rgb.
  set (q := if l <? 0.5 then l * (1 + s) else l + s - l * s) in *.
  set (p := 2 * l - q) in *.
  destruct Hpq as [Hp [Hpq Hq]].
  assert (Hr : 0 <= Canvas.hue2rgb p q (h + 1 / 3) <= 1).
  { destruct (hue2rgb_between p q (h + 1 / 3)) as [Ha Hb];
      [exact Hpq | qlra | qlra | split; lra]. }
  assert (Hg : 0 <= Canvas.hue2rgb p q h <= 1).
  { destruct (hue2rgb_between p q h) as [Ha Hb];
      [exact Hpq | qlra | qlra | split; lra]. }
  assert (Hb : 0 <= Canvas.hue2rgb p q (h - 1 / 3) <= 1).
  { destruct (hue2rgb_between p q (h - 1 / 3)) as [Ha Hb];
      [exact Hpq | qlra | qlra | split; lra]. }
  pose proof (round_byte _ (proj1 Hr) (proj2 Hr)) as Br.
  pose proof (round_byte _ (proj1 Hg) (proj2 Hg)) as Bg.
  pose proof (round_byte _ (proj1 Hb) (proj2 Hb)) as Bb.
  repeat split; try lia; first [apply Hr | apply Hg | apply Hb].
Qed.

Lemma X9_witness :
  0 <= 1 / 3 <= 1 /\ 0 <= 1 <= 1 /\ 0 <= 1 / 2 <= 1 /\
  (((0 <= Canvas.r (Canvas.hslToRgb (1 / 3) 1 (1 / 2)) <= 255)%Z
    /\ (0 <= Canvas.g (Canvas.hslToRgb (1 / 3) 1 (1 / 2)) <= 255)%Z
    /\ (0 <= Canvas.b (Canvas.hslToRgb (1 / 3) 1 (1 / 2)) <= 255)%Z)
   /\ (Num.toUint8Clamp (Canvas.r (Canvas.hslToRgb (1 / 3) 1 (1 / 2)))
       = Canvas.r (Canvas.hslToRgb (1 / 3) 1 (1 / 2))
       /\ Num.toUint8Clamp (Canvas.g (Canvas.hslToRgb (1 / 3) 1 (1 / 2)))
          = Canvas.g (Canvas.hslToRgb (1 / 3) 1 (1 / 2))
       /\ Num.toUint8Clamp (Canvas.b (Canvas.hslToRgb (1 / 3) 1 (1 / 2)))
          = Canvas.b (Canvas.hslToRgb (1 / 3) 1 (1 / 2)))
   /\ (0 <= v3x (Shader.hsl2rgb (1 / 3) 1 (1 / 2)) <= 1
       /\ 0 <= v3y (Shader.hsl2rgb (1 / 3) 1 (1 / 2)) <= 1
       /\ 0 <= v3z (Shader.hsl2rgb (1 / 3) 1 (1 / 2)) <= 1)).
Proof.
  assert (Hh : 0 <= 1 / 3 <= 1) by (split; discriminate).
  assert (Hs : 0 <= 1 <= 1) by (split; discriminate).
  assert (Hl : 0 <= 1 / 2 <= 1) by (split; discriminate).
  split; [exact Hh | split; [exact Hs | split; [exact Hl|]]].
  exact (X9_conversions_stay_in_range (1 / 3) 1 (1 / 2) Hh Hs Hl).
Defined.

(** X10.  [hslToRgb] does not normalise a negative hue: for a hue in
    (-1, -0.7), which [%] produces from a negative dividend, at saturation
    1 and lightness 0.5 the blue channel it returns is a negative integer;
    the byte the clamped array stores for it is 0. *)
Theorem X10_negative_hue_leaves_the_byte_range (h : Q) :
  -1 < h -> h < - (7 / 10) ->
  (Canvas.b (Canvas.hslToRgb h 1 0.5) < 0)%Z
  /\ Num.toUint8Clamp (Canvas.b (Canvas.hslToRgb h 1 0.5)) = 0%Z.
Proof.
  intros Hlo Hhi.
  destruct (canvas_channels h) as [_ [_ ->]].
  assert (Hv : Canvas.hue2rgb 0 1 (h - 1 / 3) * 255 < - (51)).
  { unfold Canvas.hue2rgb. cbv zeta.
    repeat qcases; try (exfalso; qlra); qlra. }
  assert (Hneg : (Num.Math_round (Canvas.hue2rgb 0 1 (h - 1 / 3) * 255) < 0)%Z).
  { unfold Num.Math_round.
    pose proof (Qfloor_le (Canvas.hue2rgb 0 1 (h - 1 / 3) * 255 + 1 / 2)) as Hf.
    rewrite Zlt_Qlt. change (inject_Z 0) with 0. qlra. }
  split; [exact Hneg | unfold Num.toUint8Clamp; lia].
Qed.

Lemma X10_witness :
  -1 < - (4 / 5) /\ - (4 / 5) < - (7 / 10) /\
  ((Canvas.b (Canvas.hslToRgb (- (4 / 5)) 1 0.5) < 0)%Z
   /\ Num.toUint8Clamp (Canvas.b (Canvas.hslToRgb (- (4 / 5)) 1 0.5)) = 0%Z).
Proof.
  assert (H1 : -1 < - (4 / 5)) by reflexivity.
  assert (H2 : - (4 / 5) < - (7 / 10)) by reflexivity.
  split; [exact H1 | split; [exact H2|]].
  exact (X10_negative_hue_leaves_the_byte_range (- (4 / 5)) H1 H2).
Defined.

(** With equal end points [hue2rgb] is constant. *)
Lemma hue2rgb_flat (p q t : Q) : q == p -> Canvas.hue2rgb p q t == p.
Proof.
  intros Hq. unfold Canvas.hue2rgb. cbv zeta.
  repeat (match goal with |- context [Num.ltb ?a ?b] => destruct (Num.ltb a b) end);
    rewrite ?Hq; ring.
Qed.

(** X11.  The degenerate colours, whatever the hue: saturation 0 gives
    grey (three equal channels, the lightness), lightness 0 gives black and
    lightness 1 gives white, both in [hslToRgb] and in the shader's
    [hsl2rgb]. *)
Theorem X11_achromatic_colours (h s l : Q) :
  (Canvas.hslToRgb h 0 l
   = Canvas.mkRgb (Num.Math_round (l * 255)) (Num.Math_round (l * 255))
       (Num.Math_round (l * 255))
   /\ v3x (Shader.hsl2rgb h 0 l) == l
   /\ v3y (Shader.hsl2rgb h 0 l) == l
   /\ v3z (Shader.hsl2rgb h 0 l) == l)
  /\ (Canvas.hslToRgb h s 0 = Canvas.mkRgb 0 0 0
      /\ v3x (Shader.hsl2rgb h s 0) == 0
      /\ v3y (Shader.hsl2rgb h s 0) == 0
      /\ v3z (Shader.hsl2rgb h s 0) == 0)
  /\ (Canvas.hslToRgb h s 1 = Canvas.mkRgb 255 255 255
      /\ v3x (Shader.hsl2rgb h s 1) == 1
      /\ v3y (Shader.hsl2rgb h s 1) == 1
      /\ v3z (Shader.hsl2rgb h s 1) == 1).
Proof.
  assert (Hflat : forall p q v t, q == p -> p == v ->
             Canvas.hue2rgb p q t == v).
  { intros p q v t Hq Hp. rewrite (hue2rgb_flat p q t Hq). exact Hp. }
  split; [|split].
  - unfold Canvas.hslToRgb, Shader.hsl2rgb. cbv zeta. cbn [v3x v3y v3z].
    change Shader.hue2rgb with Canvas.hue2rgb.
    set (q := if l <? 0.5 then l * (1 + 0) else l + 0 - l * 0).
    assert (Hq : q == l) by (unfold q; destruct (l <? 0.5); ring).
    assert (Hqp : q == 2 * l - q) by (rewrite Hq; ring).
    assert (Hp : 2 * l - q == l) by (rewrite Hq; ring).
    split; [|repeat split; apply Hflat; assumption].
    f_equal; apply Math_round_comp, times_comp, Hflat; assumption.
  - unfold Canvas.hslToRgb, Shader.hsl2rgb. cbv zeta. cbn [v3x v3y v3z].
    change Shader.hue2rgb with Canvas.hue2rgb.
    change (0 <? 0.5) with true. cbv iota.
    assert (Hqp : 0 * (1 + s) == 2 * 0 - 0 * (1 + s)) by ring.
    assert (Hp : 2 * 0 - 0 * (1 + s) == 0) by ring.
    split; [|repeat split; apply Hflat; assumption].
    f_equal;
      (rewrite (Math_round_comp _ (0 * 255))
         by (apply times_comp, Hflat; assumption));
      reflexivity.
  - unfold Canvas.hslToRgb, Shader.hsl2rgb. cbv zeta. cbn [v3x v3y v3z].
    change Shader.hue2rgb with Canvas.hue2rgb.
    change (1 <? 0.5) with false. cbv iota.
    assert (Hqp : 1 + s - 1 * s == 2 * 1 - (1 + s - 1 * s)) by ring.
    assert (Hp : 2 * 1 - (1 + s - 1 * s) == 1) by ring.
    split; [|repeat split; apply Hflat; assumption].
    f_equal;
      (rewrite (Math_round_comp _ (1 * 255))
         by (apply times_comp, Hflat; assumption));
      reflexivity.
Qed.

(** ** The two colour paths compared *)

(** [%] and [mod] agree on a dividend that is not negative, and differ by
    one turn otherwise unless the remainder is 0. *)
Lemma rem_vs_mod (a : Q) :
  (0 <= a rem 360 /\ a rem 360 == Num.mod_ a 360)
  \/ (a < 0 /\ -360 < a rem 360 /\ a rem 360 < 0
      /\ a rem 360 == Num.mod_ a 360 - 360).
Proof.
  destruct (rem_spec a) as [k [Hk Hs]].
  destruct (mod_range a) as [Hm0 Hm1].
  assert (Hdiff : Num.mod_ a 360 - a rem 360
                  == 360 * inject_Z (k - Qfloor (a / 360))).
  { rewrite Hk. unfold Num.mod_, Num.floor, Z.sub.
    rewrite inject_Z_plus, inject_Z_opp. ring. }
  destruct Hs as [[Ha [Hr0 Hr1]] | [Ha [Hr0 Hr1]]].
  - left. split; [exact Hr0|].
    assert (Hj : (k - Qfloor (a / 360) = 0)%Z) by (apply turns_zero; lra).
    rewrite Hj in Hdiff. change (inject_Z 0) with 0 in Hdiff. lra.
  - destruct (Qlt_le_dec (a rem 360) 0) as [Hneg | Hzero].
    + right. split; [exact Ha | split; [exact Hr0 | split; [exact Hneg|]]].
      assert (Hj : (k - Qfloor (a / 360) - 1 = 0)%Z).
      { apply turns_zero; unfold Z.sub at 1;
          rewrite inject_Z_plus, inject_Z_opp; change (inject_Z 1) with 1; lra. }
      assert (Hj' : (k - Qfloor (a / 360) = 1)%Z) by lia.
      rewrite Hj' in Hdiff. change (inject_Z 1) with 1 in Hdiff. lra.
    + left. split; [exact Hzero|].
      assert (Hj : (k - Qfloor (a / 360) = 0)%Z) by (apply turns_zero; lra).
      rewrite Hj in Hdiff. change (inject_Z 0) with 0 in Hdiff. lra.
Qed.

Lemma ratio_nonneg (iter maxIter : Z) :
  (0 <= iter)%Z -> (0 < maxIter)%Z -> 0 <= inject_Z iter / inject_Z maxIter.
Proof.
  intros Hi Hm.
  assert (H0 : 0 <= inject_Z iter)
    by (change 0 with (inject_Z 0); rewrite <- Zle_Qle; exact Hi).
  assert (H1 : 0 < inject_Z maxIter)
    by (change 0 with (inject_Z 0); rewrite <- Zlt_Qlt; exact Hm).
  apply Qle_shift_div_l; [exact H1 | lra].
Qed.

(** X12.  For a count that is not negative, a positive cap and a hue
    shift that is not negative, [%] on the canvas and [mod] in the shader
    give the same hue, in [0, 360). *)
Theorem X12_hues_agree_when_not_negative (iter maxIter : Z) (hueShift : Q) :
  (0 <= iter)%Z -> (0 < maxIter)%Z -> 0 <= hueShift ->
  Canvas.hue_degrees iter maxIter hueShift
  == Shader.hue_degrees iter maxIter hueShift
  /\ 0 <= Canvas.hue_degrees iter maxIter hueShift
  /\ Canvas.hue_degrees iter maxIter hueShift < 360.
Proof.
  intros Hi Hm Hh. pose proof (ratio_nonneg iter maxIter Hi Hm) as Hr.
  unfold Canvas.hue_degrees, Shader.hue_degrees. cbv zeta.
  set (a := inject_Z iter / inject_Z maxIter * 360 + hueShift).
  assert (Ha : 0 <= a) by (unfold a; lra).
  destruct (mod_range a) as [Hm0 Hm1].
  destruct (rem_vs_mod a) as [[H0 He] | [Hneg _]]; [|exfalso; lra].
  split; [exact He | split; lra].
Qed.

Lemma X12_witness :
  (0 <= 7)%Z /\ (0 < 500)%Z /\ 0 <= 359 /\
  (Canvas.hue_degrees 7 500 359 == Shader.hue_degrees 7 500 359
   /\ 0 <= Canvas.hue_degrees 7 500 359
   /\ Canvas.hue_degrees 7 500 359 < 360).
Proof.
  assert (H1 : (0 <= 7)%Z) by lia.
  assert (H2 : (0 < 500)%Z) by lia.
  assert (H3 : 0 <= 359) by discriminate.
  split; [exact H1 | split; [exact H2 | split; [exact H3|]]].
  exact (X12_hues_agree_when_not_negative 7 500 359 H1 H2 H3).
Defined.

(** ** The geometry of the two mappers *)

(** Interpolation by a ratio of [0, 1] stays in the interval, and a larger
    ratio gives a value that is not smaller. *)
Lemma interpolate_between (lo hi t : Q) :
  lo <= hi -> 0 <= t -> t <= 1 ->
  lo <= lo + t * (hi - lo) /\ lo + t * (hi - lo) <= hi.
Proof. intros Hlh H0 H1. split; nra. Qed.

Lemma interpolate_monotone (lo hi t t' : Q) :
  lo <= hi -> t <= t' -> lo + t * (hi - lo) <= lo + t' * (hi - lo).
Proof. intros Hlh Ht. nra. Qed.

Lemma ratio_monotone (a a' b : Q) : 0 < b -> a <= a' -> a / b <= a' / b.
Proof.
  intros Hb Ha. unfold Qdiv. apply Qmult_le_compat_r; [exact Ha|].
  apply Qlt_le_weak, Qinv_lt_0_compat, Hb.
Qed.

Lemma shader_sample_monotone (u : Shader.Uniforms) (frag frag' : vec2) :
  0 < Shader.uScale u ->
  0 < v2x (Shader.uResolution u) -> 0 < v2y (Shader.uResolution u) ->
  (v2x frag <= v2x frag' ->
   fst (Shader.sample u frag) <= fst (Shader.sample u frag'))
  /\ (v2y frag <= v2y frag' ->
      snd (Shader.sample u frag) <= snd (Shader.sample u frag')).
Proof.
  intros Hs Hrx Hry.
  pose proof (shader_window_proper u Hs Hrx Hry) as Hwin.
  unfold Shader.sample.
  destruct (Shader.window u) as [[[xMin xMax] yMin] yMax].
  destruct Hwin as [Hx Hy]. cbn [fst snd]. split; intros Hle.
  - apply interpolate_monotone; [lra | apply ratio_monotone; assumption].
  - apply interpolate_monotone; [lra | apply ratio_monotone; assumption].
Qed.

Lemma pixel_centre_in_viewport (p n : Z) :
  (0 <= p)%Z -> (p < n)%Z ->
  0 <= inject_Z p + 0.5 /\ inject_Z p + 0.5 < inject_Z n.
Proof.
  intros H0 H1.
  assert (Ha : 0 <= inject_Z p)
    by (change 0 with (inject_Z 0); rewrite <- Zle_Qle; exact H0).
  assert (Hb : inject_Z p + 1 <= inject_Z n).
  { change 1 with (inject_Z 1). rewrite <- inject_Z_plus, <- Zle_Qle. lia. }
  split; lra.
Qed.

(** X14.  In every frame of the animation, whatever the size of the
    viewport: the sample of every pixel, taken at the centre of the pixel,
    lies in the window the shader computes, and the samples are ordered
    like the pixels: a pixel further right never has a smaller [x0], a pixel
    further up never a smaller [y0].  (The order is not strict: deep in the
    zoom neighbouring pixels can share a sample.) *)
Theorem X14_frame_samples_in_window_and_ordered
    (n : nat) (hueShift : Q) (width height px px' py py' : Z) :
  (0 <= px)%Z -> (px <= px')%Z -> (px' < width)%Z ->
  (0 <= py)%Z -> (py <= py')%Z -> (py' < height)%Z ->
  let u := Viewer.frame_uniforms width height (Viewer.scale_after n)
             hueShift in
  in_window (Shader.window u) (Shader.sample u (pixel_centre px py))
  /\ fst (Shader.sample u (pixel_centre px py))
     <= fst (Shader.sample u (pixel_centre px' py))
  /\ snd (Shader.sample u (pixel_centre px py))
     <= snd (Shader.sample u (pixel_centre px py')).
Proof.
  intros Hx0 Hxx Hx1 Hy0 Hyy Hy1 u.
  destruct (scale_after_bounds n) as [Hs1 _].
  assert (Hs : 0 < Shader.uScale u)
    by (unfold u, Viewer.frame_uniforms; cbn [Shader.uScale]; lra).
  destruct (pixel_centre_in_viewport px width Hx0 ltac:(lia)) as [Hcx0 Hcx1].
  destruct (pixel_centre_in_viewport py height Hy0 ltac:(lia)) as [Hcy0 Hcy1].
  assert (Hrx : 0 < v2x (Shader.uResolution u))
    by (unfold u, Viewer.frame_uniforms; cbn [Shader.uResolution v2x]; lra).
  assert (Hry : 0 < v2y (Shader.uResolution u))
    by (unfold u, Viewer.frame_uniforms; cbn [Shader.uResolution v2y]; lra).
  split; [|split].
  - apply shader_sample_range; try exact Hs;
      unfold u, Viewer.frame_uniforms, pixel_centre;
      cbn [Shader.uResolution v2x v2y]; assumption.
  - apply (shader_sample_monotone u (pixel_centre px py) (pixel_centre px' py)
             Hs Hrx Hry).
    unfold pixel_centre. cbn [v2x]. rewrite Zle_Qle in Hxx. lra.
  - apply (shader_sample_monotone u (pixel_centre px py) (pixel_centre px py')
             Hs Hrx Hry).
    unfold pixel_centre. cbn [v2y]. rewrite Zle_Qle in Hyy. lra.
Qed.

Lemma X14_witness :
  (0 <= 3)%Z /\ (3 <= 4)%Z /\ (4 < 800)%Z /\
  (0 <= 5)%Z /\ (5 <= 9)%Z /\ (9 < 600)%Z /\
  (let u := Viewer.frame_uniforms 800 600 (Viewer.scale_after 7) 30 in
   in_window (Shader.window u) (Shader.sample u (pixel_centre 3 5))
   /\ fst (Shader.sample u (pixel_centre 3 5))
      <= fst (Shader.sample u (pixel_centre 4 5))
   /\ snd (Shader.sample u (pixel_centre 3 5))
      <= snd (Shader.sample u (pixel_centre 3 9))).
Proof.
  assert (H1 : (0 <= 3)%Z) by lia. assert (H2 : (3 <= 4)%Z) by lia.
  assert (H3 : (4 < 800)%Z) by lia. assert (H4 : (0 <= 5)%Z) by lia.
  assert (H5 : (5 <= 9)%Z) by lia. assert (H6 : (9 < 600)%Z) by lia.
  split; [exact H1|]. split; [exact H2|]. split; [exact H3|].
  split; [exact H4|]. split; [exact H5|]. split; [exact H6|].
  exact (X14_frame_samples_in_window_and_ordered 7 30 800 600 3 4 5 9
           H1 H2 H3 H4 H5 H6).
Defined.

Lemma pixel_ratio_le (p p' n : Z) :
  (0 < n)%Z -> (p <= p')%Z -> inject_Z p / inject_Z n <= inject_Z p' / inject_Z n.
Proof.
  intros Hn Hp. apply ratio_monotone.
  - change 0 with (inject_Z 0). rewrite <- Zlt_Qlt. exact Hn.
  - rewrite <- Zle_Qle. exact Hp.
Qed.

(** X15.  The canvas mapper, for a window whose bounds lie within
    a million of the origin (far from where [xMax - xMin] could overflow):
    the sample of every pixel lies in [[xMin, xMax] x [yMin, yMax]], pixel
    column 0 maps to [xMin] and pixel row 0 to [yMin], and the samples are
    ordered like the pixels: a larger column index never gives a smaller
    [x0], a larger row index never a smaller [y0].  (The order is not
    strict: over a window only a few units in the last place wide,
    neighbouring pixels share a sample and the last one can fall on
    [xMax].) *)
Theorem X15_canvas_samples_in_window_and_ordered
    (px px' py py' width height : Z) (xMin xMax yMin yMax : Q) :
  (0 <= px)%Z -> (px <= px')%Z -> (px' < width)%Z ->
  (0 <= py)%Z -> (py <= py')%Z -> (py' < height)%Z ->
  xMin <= xMax -> yMin <= yMax ->
  -1000000 <= xMin -> xMax <= 1000000 ->
  -1000000 <= yMin -> yMax <= 1000000 ->
  in_window (xMin, xMax, yMin, yMax)
    (Canvas.sample px py width height xMin xMax yMin yMax)
  /\ fst (Canvas.sample 0 py width height xMin xMax yMin yMax) == xMin
  /\ snd (Canvas.sample px 0 width height xMin xMax yMin yMax) == yMin
  /\ fst (Canvas.sample px py width height xMin xMax yMin yMax)
     <= fst (Canvas.sample px' py width height xMin xMax yMin yMax)
  /\ snd (Canvas.sample px py width height xMin xMax yMin yMax)
     <= snd (Canvas.sample px py' width height xMin xMax yMin yMax).
Proof.
  intros Hx0 Hxx Hx1 Hy0 Hyy Hy1 Hx Hy _ _ _ _.
  destruct (pixel_ratio px width ltac:(lia)) as [Hrx0 Hrx1].
  destruct (pixel_ratio py height ltac:(lia)) as [Hry0 Hry1].
  unfold in_window, Canvas.sample. cbn [fst snd].
  split; [split|].
  - apply interpolate_between; [exact Hx | exact Hrx0 | lra].
  - apply interpolate_between; [exact Hy | exact Hry0 | lra].
  - split; [|split; [|split]].
    + unfold Qdiv. change (inject_Z 0) with 0. ring.
    + unfold Qdiv. change (inject_Z 0) with 0. ring.
    + apply interpolate_monotone; [exact Hx|].
      apply pixel_ratio_le; [lia | exact Hxx].
    + apply interpolate_monotone; [exact Hy|].
      apply pixel_ratio_le; [lia | exact Hyy].
Qed.

Lemma X15_witness :
  (0 <= 3)%Z /\ (3 <= 4)%Z /\ (4 < 800)%Z /\
  (0 <= 5)%Z /\ (5 <= 9)%Z /\ (9 < 600)%Z /\
  -2 <= 1 /\ -1 <= 1 /\
  -1000000 <= -2 /\ 1 <= 1000000 /\ -1000000 <= -1 /\ 1 <= 1000000 /\
  (in_window (-2, 1, -1, 1) (Canvas.sample 3 5 800 600 (-2) 1 (-1) 1)
   /\ fst (Canvas.sample 0 5 800 600 (-2) 1 (-1) 1) == -2
   /\ snd (Canvas.sample 3 0 800 600 (-2) 1 (-1) 1) == -1
   /\ fst (Canvas.sample 3 5 800 600 (-2) 1 (-1) 1)
      <= fst (Canvas.sample 4 5 800 600 (-2) 1 (-1) 1)
   /\ snd (Canvas.sample 3 5 800 600 (-2) 1 (-1) 1)
      <= snd (Canvas.sample 3 9 800 600 (-2) 1 (-1) 1)).
Proof.
  assert (H1 : (0 <= 3)%Z) by lia. assert (H2 : (3 <= 4)%Z) by lia.
  assert (H3 : (4 < 800)%Z) by lia. assert (H4 : (0 <= 5)%Z) by lia.
  assert (H5 : (5 <= 9)%Z) by lia. assert (H6 : (9 < 600)%Z) by lia.
  assert (Q1 : -2 <= 1) by discriminate.
  assert (Q2 : -1 <= 1) by discriminate.
  assert (Q3 : -1000000 <= -2) by discriminate.
  assert (Q4 : 1 <= 1000000) by discriminate.
  assert (Q5 : -1000000 <= -1) by discriminate.
  split; [exact H1|]. split; [exact H2|]. split; [exact H3|].
  split; [exact H4|]. split; [exact H5|]. split; [exact H6|].
  split; [exact Q1|]. split; [exact Q2|]. split; [exact Q3|].
  split; [exact Q4|]. split; [exact Q5|]. split; [exact Q4|].
  exact (X15_canvas_samples_in_window_and_ordered 3 4 5 9 800 600
           (-2) 1 (-1) 1 H1 H2 H3 H4 H5 H6 Q1 Q2 Q3 Q4 Q5 Q4).
Defined.

(** ** The image the canvas routine presents *)

(** The canvas loop does not tell equal numbers apart. *)
Lemma while_loop_Qeq (fuel : nat) :
  forall (m : Z) (x0 y0 x0' y0' : Q) (st st' : IterState),
    x0 == x0' -> y0 == y0' ->
    it_x st == it_x st' -> it_y st == it_y st' ->
    it_iter st = it_iter st' ->
    it_x (Canvas.while_loop fuel m x0 y0 st)
    == it_x (Canvas.while_loop fuel m x0' y0' st')
    /\ it_y (Canvas.while_loop fuel m x0 y0 st)
       == it_y (Canvas.while_loop fuel m x0' y0' st')
    /\ it_iter (Canvas.while_loop fuel m x0 y0 st)
       = it_iter (Canvas.while_loop fuel m x0' y0' st').
Proof.
  induction fuel as [|fuel IH]; intros m x0 y0 x0' y0' st st' Hx0 Hy0 Hx Hy Hi;
    cbn [Canvas.while_loop]; [repeat split; assumption|].
  assert (Hmag : it_x st * it_x st + it_y st * it_y st
                 == it_x st' * it_x st' + it_y st' * it_y st')
    by (rewrite Hx, Hy; reflexivity).
  unfold Num.leb. rewrite (Qleb_comp _ _ Hmag 4 4) by reflexivity.
  rewrite Hi.
  destruct (Qle_bool (it_x st' * it_x st' + it_y st' * it_y st') 4
            && (it_iter st' <? m)%Z); [|repeat split; assumption].
  apply IH; cbn [it_x it_y it_iter]; try assumption.
  - rewrite Hx, Hy, Hx0. reflexivity.
  - rewrite Hx, Hy, Hy0. reflexivity.
  - reflexivity.
Qed.

Lemma escape_time_Qeq (m : Z) (x0 y0 x0' y0' : Q) :
  x0 == x0' -> y0 == y0' ->
  it_iter (Canvas.escape_time m x0 y0) = it_iter (Canvas.escape_time m x0' y0').
Proof.
  intros Hx Hy. unfold Canvas.escape_time.
  apply while_loop_Qeq; try assumption; reflexivity.
Qed.

(** X16.  A pixel depends on its own sample only, and sits at its own
    place: the four bytes the routine leaves at index
    [(py * width + px) * 4] for pixel [(px, py)] of an image are the four
    bytes it leaves in an image of one pixel rendered, with the same cap and
    hue shift, over a window that starts at that pixel's sample.  The image
    has [4 * width * height] bytes. *)
Theorem X16_pixel_depends_on_its_sample_only
    (ctx ctx' : Canvas.CanvasRenderingContext2D)
    (width height : Z) (xMin xMax yMin yMax : Q) (maxIter : Z)
    (hueShift : Q) (px py c : Z) :
  (0 <= px < width)%Z -> (0 <= py < height)%Z -> (0 <= c < 4)%Z ->
  let x0 := fst (Canvas.sample px py width height xMin xMax yMin yMax) in
  let y0 := snd (Canvas.sample px py width height xMin xMax yMin yMax) in
  exists image single : Canvas.Uint8ClampedArray,
    Canvas.presented
      (Canvas.renderMandelbrot ctx width height xMin xMax yMin yMax maxIter
         hueShift) = Some image
    /\ Canvas.presented
         (Canvas.renderMandelbrot ctx' 1 1 x0 (x0 + 1) y0 (y0 + 1) maxIter
            hueShift) = Some single
    /\ Z.of_nat (length image) = (width * height * 4)%Z
    /\ Z.of_nat (length single) = 4%Z
    /\ image !! Z.to_nat ((py * width + px) * 4 + c)
       = single !! Z.to_nat c.
Proof.
  intros Hpx Hpy Hc x0 y0.
  assert (Hlen : Z.of_nat (length (Canvas.createImageData width height))
                 = (width * height * 4)%Z)
    by (apply createImageData_length; lia).
  assert (Hlen1 : Z.of_nat (length (Canvas.createImageData 1 1))
                  = (1 * 1 * 4)%Z)
    by (apply createImageData_length; lia).
  exists (Canvas.fill width height xMin xMax yMin yMax maxIter hueShift
            (Canvas.createImageData width height)),
         (Canvas.fill 1 1 x0 (x0 + 1) y0 (y0 + 1) maxIter hueShift
            (Canvas.createImageData 1 1)).
  split; [apply renderMandelbrot_presents|].
  split; [apply renderMandelbrot_presents|].
  split; [rewrite fill_length; exact Hlen|].
  split; [rewrite fill_length, Hlen1; reflexivity|].
  rewrite (fill_lookup width height xMin xMax yMin yMax maxIter hueShift
             _ px py c Hlen Hpx Hpy Hc).
  replace (Z.to_nat c) with (Z.to_nat ((0 * 1 + 0) * 4 + c)) at 2
    by (f_equal; lia).
  rewrite (fill_lookup 1 1 x0 (x0 + 1) y0 (y0 + 1) maxIter hueShift
             _ 0 0 c Hlen1 ltac:(lia) ltac:(lia) Hc).
  f_equal. unfold pixel_quad.
  fold x0 y0.
  replace (Canvas.sample px py width height xMin xMax yMin yMax)
    with (x0, y0) by (unfold x0, y0; apply surjective_pairing).
  unfold Canvas.sample at 1.
  rewrite (escape_time_Qeq maxIter
             (x0 + inject_Z 0 / inject_Z 1 * (x0 + 1 - x0))
             (y0 + inject_Z 0 / inject_Z 1 * (y0 + 1 - y0)) x0 y0).
  - reflexivity.
  - unfold Qdiv. change (inject_Z 0) with 0. ring.
  - unfold Qdiv. change (inject_Z 0) with 0. ring.
Qed.

Lemma X16_witness :
  (0 <= 799 < 800)%Z /\ (0 <= 599 < 600)%Z /\ (0 <= 2 < 4)%Z /\
  (let x0 := fst (Canvas.sample 799 599 800 600 (-2) 1 (-1) 1) in
   let y0 := snd (Canvas.sample 799 599 800 600 (-2) 1 (-1) 1) in
   exists image single : Canvas.Uint8ClampedArray,
     Canvas.presented
       (Canvas.renderMandelbrot (Canvas.mkCtx []) 800 600 (-2) 1 (-1) 1 500 0)
     = Some image
     /\ Canvas.presented
          (Canvas.renderMandelbrot (Canvas.mkCtx []) 1 1 x0 (x0 + 1) y0
             (y0 + 1) 500 0) = Some single
     /\ Z.of_nat (length image) = (800 * 600 * 4)%Z
     /\ Z.of_nat (length single) = 4%Z
     /\ image !! Z.to_nat ((599 * 800 + 799) * 4 + 2)
        = single !! Z.to_nat 2).
Proof.
  assert (H1 : (0 <= 799 < 800)%Z) by lia.
  assert (H2 : (0 <= 599 < 600)%Z) by lia.
  assert (H3 : (0 <= 2 < 4)%Z) by lia.
  split; [exact H1 | split; [exact H2 | split; [exact H3|]]].
  exact (X16_pixel_depends_on_its_sample_only (Canvas.mkCtx []) (Canvas.mkCtx [])
           800 600 (-2) 1 (-1) 1 500 0 799 599 2 H1 H2 H3).
Defined.

(** Some byte of a pixel is 255 when the hue is within one turn of zero. *)
Lemma canvas_some_byte_full (h : Q) :
  -1 < h -> h < 1 ->
  Num.toUint8Clamp (Canvas.r (Canvas.hslToRgb h 1 0.5)) = 255%Z
  \/ Num.toUint8Clamp (Canvas.g (Canvas.hslToRgb h 1 0.5)) = 255%Z
  \/ Num.toUint8Clamp (Canvas.b (Canvas.hslToRgb h 1 0.5)) = 255%Z.
Proof.
  intros Hlo Hhi.
  destruct (canvas_channels h) as [-> [-> ->]].
  destruct (Qlt_le_dec h 0) as [Hneg | Hpos].
  - rewrite (channel_byte_shift (h + 1 / 3)) by qlra.
    rewrite (channel_byte_shift h) by qlra.
    rewrite (channel_byte_shift (h - 1 / 3)) by qlra.
    rewrite (channel_byte_comp (h + 1 / 3 + 1) (h + 1 + 1 / 3)) by ring.
    rewrite (channel_byte_comp (h - 1 / 3 + 1) (h + 1 - 1 / 3)) by ring.
    destruct (full_channel (h + 1)) as [Hf | [Hf | Hf]]; try lra;
      apply full_byte in Hf; rewrite Hf; auto.
  - destruct (full_channel h Hpos Hhi) as [Hf | [Hf | Hf]];
      apply full_byte in Hf; rewrite Hf; auto.
Qed.

(** A byte index of the buffer is a channel of a pixel. *)
Lemma index_decompose (width height : Z) (j : nat) :
  (0 < width)%Z -> (0 < height)%Z ->
  (Z.of_nat j < width * height * 4)%Z ->
  exists px py c : Z,
    (0 <= px < width)%Z /\ (0 <= py < height)%Z /\ (0 <= c < 4)%Z
    /\ j = Z.to_nat ((py * width + px) * 4 + c).
Proof.
  intros Hw Hh Hj.
  set (b := (Z.of_nat j / 4)%Z). set (c := (Z.of_nat j mod 4)%Z).
  set (px := (b mod width)%Z). set (py := (b / width)%Z).
  assert (Hb : (0 <= b < width * height)%Z)
    by (unfold b; split; [apply Z.div_pos; lia
                         | apply Z.div_lt_upper_bound; lia]).
  exists px, py, c.
  split; [unfold px; apply Z.mod_pos_bound; lia|].
  split.
  { unfold py. split; [apply Z.div_pos; lia|].
    apply Z.div_lt_upper_bound; lia. }
  split; [unfold c; apply Z.mod_pos_bound; lia|].
  unfold px, py, c.
  pose proof (Z.div_mod b width ltac:(lia)) as Hdm.
  pose proof (Z.div_mod (Z.of_nat j) 4 ltac:(lia)) as Hdm4.
  fold b in Hdm4. lia.
Qed.

Lemma clamp_is_byte (v : Z) : (0 <= Num.toUint8Clamp v <= 255)%Z.
Proof. unfold Num.toUint8Clamp. lia. Qed.

(** X17.  The image presented for a positive size and a cap other than 0:
    every byte the routine leaves in the buffer is in [0, 255], every pixel
    is opaque, and every pixel has a colour channel at 255, so that no pixel
    is black and none keeps the transparent black the buffer started
    with. *)
Theorem X17_image_opaque_and_coloured
    (ctx : Canvas.CanvasRenderingContext2D)
    (width height : Z) (xMin xMax yMin yMax : Q) (maxIter : Z)
    (hueShift : Q) :
  (0 < width)%Z -> (0 < height)%Z -> maxIter <> 0%Z ->
  exists buffer : Canvas.Uint8ClampedArray,
    Canvas.presented
      (Canvas.renderMandelbrot ctx width height xMin xMax yMin yMax maxIter
         hueShift) = Some buffer
    /\ (forall j : nat, (j < length buffer)%nat ->
          exists v : Z, buffer !! j = Some v /\ (0 <= v <= 255)%Z)
    /\ (forall px py : Z, (0 <= px < width)%Z -> (0 <= py < height)%Z ->
          buffer !! Z.to_nat ((py * width + px) * 4 + 3) = Some 255%Z
          /\ exists c : Z, (0 <= c < 3)%Z
               /\ buffer !! Z.to_nat ((py * width + px) * 4 + c)
                  = Some 255%Z).
Proof.
  intros Hw Hh _.
  assert (Hlen : Z.of_nat (length (Canvas.createImageData width height))
                 = (width * height * 4)%Z)
    by (apply createImageData_length; lia).
  pose proof (fun px py c => fill_lookup width height xMin xMax yMin yMax
                maxIter hueShift (Canvas.createImageData width height)
                px py c Hlen) as Hq.
  exists (Canvas.fill width height xMin xMax yMin yMax maxIter hueShift
            (Canvas.createImageData width height)).
  split; [apply renderMandelbrot_presents|]. split.
  - intros j Hj. rewrite fill_length in Hj.
    destruct (index_decompose width height j Hw Hh ltac:(lia))
      as [px [py [c [Hpx [Hpy [Hc ->]]]]]].
    rewrite (Hq px py c Hpx Hpy Hc). unfold pixel_quad, Canvas.pixel_bytes.
    destruct (Canvas.sample px py width height xMin xMax yMin yMax)
      as [x0 y0]. cbv zeta.
    assert (Hcases : c = 0%Z \/ c = 1%Z \/ c = 2%Z \/ c = 3%Z) by lia.
    destruct Hcases as [-> | [-> | [-> | ->]]]; eexists;
      (split; [reflexivity|]); try apply clamp_is_byte; lia.
  - intros px py Hpx Hpy.
    pose proof (Hq px py 3%Z Hpx Hpy ltac:(lia)) as H3.
    pose proof (Hq px py 0%Z Hpx Hpy ltac:(lia)) as H0.
    pose proof (Hq px py 1%Z Hpx Hpy ltac:(lia)) as H1.
    pose proof (Hq px py 2%Z Hpx Hpy ltac:(lia)) as H2.
    unfold pixel_quad, Canvas.pixel_bytes, Canvas.color in H0, H1, H2, H3.
    destruct (Canvas.sample px py width height xMin xMax yMin yMax)
      as [x0 y0]. cbv zeta in H0, H1, H2, H3.
    split; [exact H3|].
    destruct (canvas_hue_range (it_iter (Canvas.escape_time maxIter x0 y0))
                maxIter hueShift) as [Hlo Hhi].
    destruct (canvas_some_byte_full _ Hlo Hhi) as [Hf | [Hf | Hf]].
    + exists 0%Z. split; [lia|]. rewrite H0, <- Hf. reflexivity.
    + exists 1%Z. split; [lia|]. rewrite H1, <- Hf. reflexivity.
    + exists 2%Z. split; [lia|]. rewrite H2, <- Hf. reflexivity.
Qed.

Lemma X17_witness :
  (0 < 800)%Z /\ (0 < 600)%Z /\ 500%Z <> 0%Z /\
  exists buffer : Canvas.Uint8ClampedArray,
    Canvas.presented
      (Canvas.renderMandelbrot (Canvas.mkCtx []) 800 600 (-2) 1 (-1) 1 500 0)
    = Some buffer
    /\ (forall j : nat, (j < length buffer)%nat ->
          exists v : Z, buffer !! j = Some v /\ (0 <= v <= 255)%Z)
    /\ (forall px py : Z, (0 <= px < 800)%Z -> (0 <= py < 600)%Z ->
          buffer !! Z.to_nat ((py * 800 + px) * 4 + 3) = Some 255%Z
          /\ exists c : Z, (0 <= c < 3)%Z
               /\ buffer !! Z.to_nat ((py * 800 + px) * 4 + c)
                  = Some 255%Z).
Proof.
  assert (H1 : (0 < 800)%Z) by lia.
  assert (H2 : (0 < 600)%Z) by lia.
  assert (H3 : 500%Z <> 0%Z) by discriminate.
  split; [exact H1 | split; [exact H2 | split; [exact H3|]]].
  exact (X17_image_opaque_and_coloured (Canvas.mkCtx []) 800 600 (-2) 1 (-1) 1
           500 0 H1 H2 H3).
Defined.

(** ** The state of the component *)

(** On [0, 720) the operator [%] subtracts at most one turn. *)
Lemma rem_below_two_turns (a : Q) :
  0 <= a -> a < 720 ->
  (a < 360 /\ a rem 360 == a) \/ (360 <= a /\ a rem 360 == a - 360).
Proof.
  intros H0 H1.
  destruct (rem_spec a) as [k [Hk [[_ [Hr0 Hr1]] | [Hneg _]]]];
    [|exfalso; lra].
  destruct (Qlt_le_dec a 360) as [Hlt | Hge].
  - left. split; [exact Hlt|].
    assert (Hj : k = 0%Z) by (apply turns_zero; lra).
    rewrite Hj in Hk. change (inject_Z 0) with 0 in Hk. lra.
  - right. split; [exact Hge|].
    assert (Hj : (k - 1 = 0)%Z).
    { apply turns_zero; unfold Z.sub;
        rewrite inject_Z_plus, inject_Z_opp; change (inject_Z 1) with 1; lra. }
    assert (Hj' : k = 1%Z) by lia.
    rewrite Hj' in Hk. change (inject_Z 1) with 1 in Hk. lra.
Qed.

(** X18.  The hue shift the component keeps, after any number of updates
    of the tween: it lies in [0, 360), and an update adds 0.1 to it, taking
    one full turn off when the sum reaches 360. *)
Theorem X18_hue_shift_state (n : nat) :
  (0 <= Viewer.hue_after n /\ Viewer.hue_after n < 360)
  /\ ((Viewer.hue_after n + 0.1 < 360
       /\ Viewer.hue_after (S n) == Viewer.hue_after n + 0.1)
      \/ (360 <= Viewer.hue_after n + 0.1
          /\ Viewer.hue_after (S n) == Viewer.hue_after n + 0.1 - 360)).
Proof.
  destruct (hue_after_range n) as [H0 H1]. split; [split; assumption|].
  cbn [Viewer.hue_after]. unfold Viewer.hue_update, Viewer.colorSpeed.
  apply rem_below_two_turns; lra.
Qed.

(** From any update on, the scale either is reset within the next [m]
    updates or has grown by [m / 200]. *)
Lemma scale_grows_from (n m : nat) :
  (exists k : nat, (n <= k)%nat /\ Viewer.scale_after (S k) = 1)
  \/ 1 + inject_Z (Z.of_nat m) * (1 / 200) <= Viewer.scale_after (n + m).
Proof.
  induction m as [|m [IH | IH]].
  - right. rewrite Nat.add_0_r. change (inject_Z (Z.of_nat 0)) with 0.
    destruct (scale_after_bounds n) as [H1 _]. lra.
  - left. exact IH.
  - rewrite Nat.add_succ_r.
    destruct (scale_after_bounds (n + m)) as [H1 _].
    destruct (scale_update_cases (Viewer.scale_after (n + m)))
      as [[_ Hb] | [_ Hb]].
    + right. rewrite scale_after_succ, Hb.
      rewrite Nat2Z.inj_succ. unfold Z.succ. rewrite inject_Z_plus.
      change (inject_Z 1) with 1. unfold Viewer.zoomSpeed. qlra.
    + left. exists (n + m)%nat. split; [lia|].
      rewrite scale_after_succ. exact Hb.
Qed.

(** X19.  The zoom restarts again and again: after any number of updates
    there is a later update that resets the scale to 1, and the cap
    computed from the scale is then 500. *)
Theorem X19_scale_resets_again_and_again (n : nat) :
  exists k : nat,
    (n <= k)%nat
    /\ Viewer.scale_after (S k) = 1
    /\ Viewer.dynamicMaxIter (Viewer.scale_after (S k)) = 500%Z.
Proof.
  destruct (scale_grows_from n (Z.to_nat 200000000)) as [[k [Hk Hr]] | Hgrow].
  - exists k. split; [exact Hk | split; [exact Hr|]].
    rewrite Hr. apply dynamicMaxIter_at_1.
  - exfalso.
    destruct (scale_after_bounds (n + Z.to_nat 200000000)) as [_ Hlt].
    rewrite Z2Nat.id in Hgrow by lia.
    change (inject_Z 200000000) with 200000000 in Hgrow.
    pose proof MAX_SCALE_value as HM. qlra.
Qed.

Lemma exp_20_above_million : (1000000 < exp 20)%R.
Proof.
  pose proof (exp_ineq1_le 1) as H1.
  replace 20%R with ((5 + 5) + (5 + 5))%R by Lra.lra.
  replace 5%R with ((1 + 1) + (1 + 1) + 1)%R by Lra.lra.
  rewrite !exp_plus.
  set (a := exp 1) in *.
  assert (H2 : (4 <= a * a)%R) by Lra.nra.
  assert (H4 : (16 <= a * a * (a * a))%R) by Lra.nra.
  assert (H5 : (32 <= a * a * (a * a) * a)%R) by Lra.nra.
  set (e := (a * a * (a * a) * a)%R) in *.
  assert (H10 : (1024 <= e * e)%R) by Lra.nra.
  Lra.nra.
Qed.

Lemma Q2R_million : Q2R 1000000 = 1000000%R.
Proof. unfold Q2R. cbn [Qnum Qden]. change (IZR (Zpos 1)) with 1%R. Lra.lra. Qed.

(** The logarithm of a scale the component can hold is below 20. *)
Lemma ln_scale_below_20 (s : Q) : 1 <= s -> s < 1000000 -> (ln (Q2R s) < 20)%R.
Proof.
  intros H1 H2.
  apply Qle_Rle in H1. rewrite RMicromega.Q2R_1 in H1.
  apply Qlt_Rlt in H2. rewrite Q2R_million in H2.
  rewrite <- (ln_exp 20). apply ln_increasing; [Lra.lra|].
  pose proof exp_20_above_million. Lra.lra.
Qed.

Lemma dynamicMaxIter_range (s : Q) :
  1 <= s -> s < 1000000 -> (500 <= Viewer.dynamicMaxIter s < 2500)%Z.
Proof.
  intros H1 H2. split; [apply dynamicMaxIter_at_least_500; exact H1|].
  unfold Viewer.dynamicMaxIter, Num.Math_floor, Num.Math_log.
  pose proof (ln_scale_below_20 s H1 H2) as Hln.
  pose proof (Zfloor_bound (500 + 100 * ln (Q2R s))) as [Hf _].
  apply lt_IZR. Lra.lra.
Qed.

(** The cap of a frame of the animation. *)
Lemma frame_cap_range (n : nat) :
  (500 <= Viewer.dynamicMaxIter (Viewer.scale_after n) < 2500)%Z.
Proof.
  destruct (scale_after_bounds n) as [H1 H2]. pose proof MAX_SCALE_value.
  apply dynamicMaxIter_range; lra.
Qed.

(** X20.  The iteration cap [render] uploads: for a scale in
    [1, 1000000) it lies in [500, 2500), it does not decrease when the
    scale grows, and so in every frame of the animation it is positive and
    below the constant bound 20000 of the shader's loop. *)
Theorem X20_uploaded_cap_range (s s' : Q) (n : nat) :
  (1 <= s -> s < 1000000 ->
   (500 <= Viewer.dynamicMaxIter s < 2500)%Z)
  /\ (0 < s -> s <= s' ->
      (Viewer.dynamicMaxIter s <= Viewer.dynamicMaxIter s')%Z)
  /\ (500 <= Viewer.dynamicMaxIter (Viewer.scale_after n) < 2500)%Z
  /\ (0 < Viewer.dynamicMaxIter (Viewer.scale_after n) < Shader.LOOP_BOUND)%Z.
Proof.
  pose proof (frame_cap_range n) as Hframe.
  split; [exact (dynamicMaxIter_range s)|]. split; [|split; [exact Hframe|]].
  - intros H0 Hle.
    unfold Viewer.dynamicMaxIter, Num.Math_floor, Num.Math_log.
    apply Zfloor_le.
    assert (H0' : 0 < s') by lra.
    apply Qlt_Rlt in H0, H0'. rewrite RMicromega.Q2R_0 in H0, H0'.
    apply Qle_Rle in Hle.
    destruct (Rle_lt_or_eq_dec _ _ Hle) as [Hlt | Heq].
    + pose proof (ln_increasing _ _ H0 Hlt). Lra.lra.
    + rewrite Heq. Lra.lra.
  - unfold Shader.LOOP_BOUND. lia.
Qed.

(** ** The WebGL set-up *)

(** The log a computation leaves, flattened. *)
Ltac flatten_log :=
  repeat rewrite <- app_assoc; cbn [app].

(** Case analysis on every answer of the context a run depends on. *)
Ltac gl_cases H :=
  repeat match type of H with
         | context [match ?x with _ => _ end] => destruct x eqn:?
         | context [if ?x then _ else _] => destruct x eqn:?
         end.

Lemma compileShader_runs (gl : WebGL.WebGLRenderingContext)
    (source : String.string) (type : Z) (log : list WebGL.Call) :
  (exists shader : WebGL.WebGLShader,
     WebGL.compileShader gl source type log
     = (log ++ [WebGL.gl_createShader type;
                WebGL.gl_shaderSource shader source;
                WebGL.gl_compileShader shader;
                WebGL.gl_getShaderParameter shader],
        WebGL.Returned shader))
  \/ WebGL.compileShader gl source type log
     = (log ++ [WebGL.gl_createShader type],
        WebGL.Thrown "Failed to create shader."%string)
  \/ (exists (shader : WebGL.WebGLShader) (info : option String.string),
        WebGL.compileShader gl source type log
        = (log ++ [WebGL.gl_createShader type;
                   WebGL.gl_shaderSource shader source;
                   WebGL.gl_compileShader shader;
                   WebGL.gl_getShaderParameter shader;
                   WebGL.gl_getShaderInfoLog shader;
                   WebGL.gl_deleteShader shader],
           WebGL.Thrown
             (String.append "Could not compile shader: "
                (WebGL.template info)))).
Proof.
  unfold WebGL.compileShader, WebGL.bind, WebGL.ask, WebGL.call, WebGL.throw,
    WebGL.ret.
  destruct (WebGL.createShader_reply gl (log ++ [WebGL.gl_createShader type]))
    as [shader|]; [|right; left; reflexivity].
  match goal with |- context [negb ?b] => destruct b end; cbn [negb].
  - left. exists shader. flatten_log. reflexivity.
  - right. right. eexists shader, _. flatten_log. reflexivity.
Qed.

(** X21.  When [createProgram] returns a program, it has made exactly
    thirteen calls: each shader created, given its source, compiled and
    asked for its status, the vertex shader first; then the program
    created, the two shaders attached in that order, the program linked and
    asked for its status.  None of them deletes anything, and the program
    returned is the one the context created. *)
Theorem X21_createProgram_success (gl : WebGL.WebGLRenderingContext)
    (vsSource fsSource : String.string) (log log' : list WebGL.Call)
    (program : WebGL.WebGLProgram) :
  WebGL.createProgram gl vsSource fsSource log
  = (log', WebGL.Returned program) ->
  exists vShader fShader : WebGL.WebGLShader,
    log' = log ++ [WebGL.gl_createShader WebGL.VERTEX_SHADER;
                   WebGL.gl_shaderSource vShader vsSource;
                   WebGL.gl_compileShader vShader;
                   WebGL.gl_getShaderParameter vShader;
                   WebGL.gl_createShader WebGL.FRAGMENT_SHADER;
                   WebGL.gl_shaderSource fShader fsSource;
                   WebGL.gl_compileShader fShader;
                   WebGL.gl_getShaderParameter fShader;
                   WebGL.gl_createProgram;
                   WebGL.gl_attachShader program vShader;
                   WebGL.gl_attachShader program fShader;
                   WebGL.gl_linkProgram program;
                   WebGL.gl_getProgramParameter program]
    /\ deletions log' = deletions log
    /\ WebGL.createProgram_reply gl
         (log ++ [WebGL.gl_createShader WebGL.VERTEX_SHADER;
                  WebGL.gl_shaderSource vShader vsSource;
                  WebGL.gl_compileShader vShader;
                  WebGL.gl_getShaderParameter vShader;
                  WebGL.gl_createShader WebGL.FRAGMENT_SHADER;
                  WebGL.gl_shaderSource fShader fsSource;
                  WebGL.gl_compileShader fShader;
                  WebGL.gl_getShaderParameter fShader;
                  WebGL.gl_createProgram])
       = Some program
    /\ WebGL.LINK_STATUS gl log' = true.
Proof.
  intros H. unfold WebGL.createProgram in H. unfold WebGL.bind at 1 in H.
  destruct (compileShader_runs gl vsSource WebGL.VERTEX_SHADER log)
    as [[v Hv] | [Hv | [v [info Hv]]]]; rewrite Hv in H;
    [|discriminate H|discriminate H].
  unfold WebGL.bind at 1 in H.
  match type of H with
  | context [WebGL.compileShader gl fsSource WebGL.FRAGMENT_SHADER ?l] =>
      destruct (compileShader_runs gl fsSource WebGL.FRAGMENT_SHADER l)
        as [[f Hf] | [Hf | [f [info Hf]]]]; rewrite Hf in H;
        [|discriminate H|discriminate H]
  end.
  unfold WebGL.bind, WebGL.ask, WebGL.call, WebGL.throw, WebGL.ret in H.
  revert H. flatten_log. intros H.
  destruct (WebGL.createProgram_reply gl _) as [p|] eqn:Hp;
    [|discriminate H].
  revert H. flatten_log.
  match goal with |- context [negb ?b] => destruct b eqn:Hlink end;
    cbn [negb]; flatten_log; intros H; [|discriminate H].
  injection H as <- <-.
  exists v, f. split; [reflexivity|]. split; [|split].
  - unfold deletions. rewrite List.filter_app. cbn. apply app_nil_r.
  - exact Hp.
  - exact Hlink.
Qed.

Lemma X21_witness :
  WebGL.createProgram
    (WebGL.mkContext (fun log => Some (Z.of_nat (length log)))
        (fun _ => true) (fun _ => None)
        (fun log => Some (Z.of_nat (length log)))
        (fun _ => true) (fun _ => None))
    "v"%string "f"%string []
  = ([WebGL.gl_createShader WebGL.VERTEX_SHADER;
    WebGL.gl_shaderSource 1%Z "v"%string;
    WebGL.gl_compileShader 1%Z;
    WebGL.gl_getShaderParameter 1%Z;
    WebGL.gl_createShader WebGL.FRAGMENT_SHADER;
    WebGL.gl_shaderSource 5%Z "f"%string;
    WebGL.gl_compileShader 5%Z;
    WebGL.gl_getShaderParameter 5%Z;
    WebGL.gl_createProgram;
    WebGL.gl_attachShader 9%Z 1%Z;
    WebGL.gl_attachShader 9%Z 5%Z;
    WebGL.gl_linkProgram 9%Z;
    WebGL.gl_getProgramParameter 9%Z],
     WebGL.Returned 9%Z)
  /\ exists vShader fShader : WebGL.WebGLShader,
       [WebGL.gl_createShader WebGL.VERTEX_SHADER;
        WebGL.gl_shaderSource 1%Z "v"%string;
        WebGL.gl_compileShader 1%Z;
        WebGL.gl_getShaderParameter 1%Z;
        WebGL.gl_createShader WebGL.FRAGMENT_SHADER;
        WebGL.gl_shaderSource 5%Z "f"%string;
        WebGL.gl_compileShader 5%Z;
        WebGL.gl_getShaderParameter 5%Z;
        WebGL.gl_createProgram;
        WebGL.gl_attachShader 9%Z 1%Z;
        WebGL.gl_attachShader 9%Z 5%Z;
        WebGL.gl_linkProgram 9%Z;
        WebGL.gl_getProgramParameter 9%Z]
       = [] ++ [WebGL.gl_createShader WebGL.VERTEX_SHADER;
             WebGL.gl_shaderSource vShader "v"%string;
             WebGL.gl_compileShader vShader;
             WebGL.gl_getShaderParameter vShader;
             WebGL.gl_createShader WebGL.FRAGMENT_SHADER;
             WebGL.gl_shaderSource fShader "f"%string;
             WebGL.gl_compileShader fShader;
             WebGL.gl_getShaderParameter fShader;
             WebGL.gl_createProgram;
             WebGL.gl_attachShader 9%Z vShader;
             WebGL.gl_attachShader 9%Z fShader;
             WebGL.gl_linkProgram 9%Z;
             WebGL.gl_getProgramParameter 9%Z]
       /\ deletions
            [WebGL.gl_createShader WebGL.VERTEX_SHADER;
             WebGL.gl_shaderSource 1%Z "v"%string;
             WebGL.gl_compileShader 1%Z;
             WebGL.gl_getShaderParameter 1%Z;
             WebGL.gl_createShader WebGL.FRAGMENT_SHADER;
             WebGL.gl_shaderSource 5%Z "f"%string;
             WebGL.gl_compileShader 5%Z;
             WebGL.gl_getShaderParameter 5%Z;
             WebGL.gl_createProgram;
             WebGL.gl_attachShader 9%Z 1%Z;
             WebGL.gl_attachShader 9%Z 5%Z;
             WebGL.gl_linkProgram 9%Z;
             WebGL.gl_getProgramParameter 9%Z]
          = deletions []
       /\ WebGL.createProgram_reply
            (WebGL.mkContext (fun log => Some (Z.of_nat (length log)))
                (fun _ => true) (fun _ => None)
                (fun log => Some (Z.of_nat (length log)))
                (fun _ => true) (fun _ => None))
            ([] ++ [WebGL.gl_createShader WebGL.VERTEX_SHADER;
                   WebGL.gl_shaderSource vShader "v"%string;
                   WebGL.gl_compileShader vShader;
                   WebGL.gl_getShaderParameter vShader;
                   WebGL.gl_createShader WebGL.FRAGMENT_SHADER;
                   WebGL.gl_shaderSource fShader "f"%string;
                   WebGL.gl_compileShader fShader;
                   WebGL.gl_getShaderParameter fShader;
                   WebGL.gl_createProgram])
          = Some 9%Z
       /\ WebGL.LINK_STATUS
            (WebGL.mkContext (fun log => Some (Z.of_nat (length log)))
                (fun _ => true) (fun _ => None)
                (fun log => Some (Z.of_nat (length log)))
                (fun _ => true) (fun _ => None))
            [WebGL.gl_createShader WebGL.VERTEX_SHADER;
             WebGL.gl_shaderSource 1%Z "v"%string;
             WebGL.gl_compileShader 1%Z;
             WebGL.gl_getShaderParameter 1%Z;
             WebGL.gl_createShader WebGL.FRAGMENT_SHADER;
             WebGL.gl_shaderSource 5%Z "f"%string;
             WebGL.gl_compileShader 5%Z;
             WebGL.gl_getShaderParameter 5%Z;
             WebGL.gl_createProgram;
             WebGL.gl_attachShader 9%Z 1%Z;
             WebGL.gl_attachShader 9%Z 5%Z;
             WebGL.gl_linkProgram 9%Z;
             WebGL.gl_getProgramParameter 9%Z]
          = true.
Proof.
  split; [reflexivity|].
  apply (X21_createProgram_success
           (WebGL.mkContext (fun log => Some (Z.of_nat (length log)))
               (fun _ => true) (fun _ => None)
               (fun log => Some (Z.of_nat (length log)))
               (fun _ => true) (fun _ => None))
           "v"%string "f"%string []).
  reflexivity.
Defined.

(** X22.  When [createProgram] throws, it has deleted at most one object.
    If it got as far as linking, the one object deleted is the program: the
    two shaders it compiled are left alive.  A shader is deleted only as the
    very last call, before any program is created, so a vertex shader that
    compiled is not deleted when the fragment shader fails.  The message is
    one of the four the code builds. *)
Theorem X22_createProgram_failure (gl : WebGL.WebGLRenderingContext)
    (vsSource fsSource : String.string) (log log' : list WebGL.Call)
    (message : String.string) :
  WebGL.createProgram gl vsSource fsSource log
  = (log', WebGL.Thrown message) ->
  exists extra : list WebGL.Call,
    log' = log ++ extra
    /\ (length (deletions extra) <= 1)%nat
    /\ (forall program : WebGL.WebGLProgram,
          In (WebGL.gl_linkProgram program) extra ->
          deletions extra = [WebGL.gl_deleteProgram program])
    /\ (forall shader : WebGL.WebGLShader,
          In (WebGL.gl_deleteShader shader) extra ->
          last extra = Some (WebGL.gl_deleteShader shader)
          /\ ~ In WebGL.gl_createProgram extra)
    /\ (message = "Failed to create shader."%string
        \/ message = "Failed to create program."%string
        \/ exists info : option String.string,
             message = String.append "Could not compile shader: "
                         (WebGL.template info)
             \/ message = String.append "Could not link program: "
                            (WebGL.template info)).
Proof.
  intros H. unfold WebGL.createProgram in H. unfold WebGL.bind at 1 in H.
  destruct (compileShader_runs gl vsSource WebGL.VERTEX_SHADER log)
    as [[v Hv] | [Hv | [v [info Hv]]]]; rewrite Hv in H.
  - unfold WebGL.bind at 1 in H.
    match type of H with
    | context [WebGL.compileShader gl fsSource WebGL.FRAGMENT_SHADER ?l] =>
        destruct (compileShader_runs gl fsSource WebGL.FRAGMENT_SHADER l)
          as [[f Hf] | [Hf | [f [info Hf]]]]; rewrite Hf in H
    end.
    + unfold WebGL.bind, WebGL.ask, WebGL.call, WebGL.throw, WebGL.ret in H.
      revert H. flatten_log. intros H.
      destruct (WebGL.createProgram_reply gl _) as [p|].
      * revert H. flatten_log.
        match goal with |- context [negb ?b] => destruct b end;
          cbn [negb]; flatten_log; intros H; [discriminate H|].
        injection H as <- <-. eexists. split; [reflexivity|].
        cbn. repeat split; try lia.
        -- intros program Hin.
           repeat (destruct Hin as [Hin | Hin]; try discriminate Hin).
           ++ injection Hin as ->. reflexivity.
           ++ destruct Hin.
        -- repeat (destruct H as [H | H]; try discriminate H). destruct H.
        -- repeat (destruct H as [H | H]; try discriminate H). destruct H.
        -- right. right. eexists. right. reflexivity.
      * injection H as <- <-. eexists. split; [reflexivity|].
        cbn. repeat split; try lia.
        -- intros program Hin.
           repeat (destruct Hin as [Hin | Hin]; try discriminate Hin).
           destruct Hin.
        -- repeat (destruct H as [H | H]; try discriminate H). destruct H.
        -- repeat (destruct H as [H | H]; try discriminate H). destruct H.
        -- right. left. reflexivity.
    + revert H. flatten_log. intros H.
      injection H as <- <-. eexists. split; [reflexivity|].
      cbn. repeat split; try lia.
      * intros program Hin.
        repeat (destruct Hin as [Hin | Hin]; try discriminate Hin).
        destruct Hin.
      * repeat (destruct H as [H | H]; try discriminate H). destruct H.
      * repeat (destruct H as [H | H]; try discriminate H). destruct H.
      * left. reflexivity.
    + revert H. flatten_log. intros H.
      injection H as <- <-. eexists. split; [reflexivity|].
      cbn. repeat split; try lia.
      * intros program Hin.
        repeat (destruct Hin as [Hin | Hin]; try discriminate Hin).
        destruct Hin.
      * repeat (destruct H as [H | H]; try discriminate H);
          [injection H as ->; reflexivity | destruct H].
      * intros Hc.
        repeat (destruct Hc as [Hc | Hc]; try discriminate Hc). destruct Hc.
      * right. right. exists info. left. reflexivity.
  - injection H as <- <-. eexists. split; [reflexivity|].
    cbn. repeat split; try lia.
    + intros program Hin.
      repeat (destruct Hin as [Hin | Hin]; try discriminate Hin).
      destruct Hin.
    + repeat (destruct H as [H | H]; try discriminate H). destruct H.
    + repeat (destruct H as [H | H]; try discriminate H). destruct H.
    + left. reflexivity.
  - injection H as <- <-. eexists. split; [reflexivity|].
    cbn. repeat split; try lia.
    + intros program Hin.
      repeat (destruct Hin as [Hin | Hin]; try discriminate Hin).
      destruct Hin.
    + repeat (destruct H as [H | H]; try discriminate H);
        [injection H as ->; reflexivity | destruct H].
    + intros Hc.
      repeat (destruct Hc as [Hc | Hc]; try discriminate Hc). destruct Hc.
    + right. right. exists info. left. reflexivity.
Qed.

Lemma X22_witness :
  WebGL.createProgram
    (WebGL.mkContext (fun log => Some (Z.of_nat (length log)))
        (fun _ => true) (fun _ => None)
        (fun log => Some (Z.of_nat (length log)))
        (fun _ => false) (fun _ => None))
    "v"%string "f"%string []
  = ([WebGL.gl_createShader WebGL.VERTEX_SHADER;
    WebGL.gl_shaderSource 1%Z "v"%string;
    WebGL.gl_compileShader 1%Z;
    WebGL.gl_getShaderParameter 1%Z;
    WebGL.gl_createShader WebGL.FRAGMENT_SHADER;
    WebGL.gl_shaderSource 5%Z "f"%string;
    WebGL.gl_compileShader 5%Z;
    WebGL.gl_getShaderParameter 5%Z;
    WebGL.gl_createProgram;
    WebGL.gl_attachShader 9%Z 1%Z;
    WebGL.gl_attachShader 9%Z 5%Z;
    WebGL.gl_linkProgram 9%Z;
    WebGL.gl_getProgramParameter 9%Z;
    WebGL.gl_getProgramInfoLog 9%Z;
    WebGL.gl_deleteProgram 9%Z],
     WebGL.Thrown "Could not link program: null"%string)
  /\ exists extra : list WebGL.Call,
       [WebGL.gl_createShader WebGL.VERTEX_SHADER;
        WebGL.gl_shaderSource 1%Z "v"%string;
        WebGL.gl_compileShader 1%Z;
        WebGL.gl_getShaderParameter 1%Z;
        WebGL.gl_createShader WebGL.FRAGMENT_SHADER;
        WebGL.gl_shaderSource 5%Z "f"%string;
        WebGL.gl_compileShader 5%Z;
        WebGL.gl_getShaderParameter 5%Z;
        WebGL.gl_createProgram;
        WebGL.gl_attachShader 9%Z 1%Z;
        WebGL.gl_attachShader 9%Z 5%Z;
        WebGL.gl_linkProgram 9%Z;
        WebGL.gl_getProgramParameter 9%Z;
        WebGL.gl_getProgramInfoLog 9%Z;
        WebGL.gl_deleteProgram 9%Z]
       = [] ++ extra
       /\ (length (deletions extra) <= 1)%nat
       /\ (forall program : WebGL.WebGLProgram,
             In (WebGL.gl_linkProgram program) extra ->
             deletions extra = [WebGL.gl_deleteProgram program])
       /\ (forall shader : WebGL.WebGLShader,
             In (WebGL.gl_deleteShader shader) extra ->
             last extra = Some (WebGL.gl_deleteShader shader)
             /\ ~ In WebGL.gl_createProgram extra)
       /\ ("Could not link program: null"%string
           = "Failed to create shader."%string
           \/ "Could not link program: null"%string
              = "Failed to create program."%string
           \/ exists info : option String.string,
                "Could not link program: null"%string
                = String.append "Could not compile shader: "
                    (WebGL.template info)
                \/ "Could not link program: null"%string
                   = String.append "Could not link program: "
                       (WebGL.template info)).
Proof.
  split; [reflexivity|].
  apply (X22_createProgram_failure
           (WebGL.mkContext (fun log => Some (Z.of_nat (length log)))
               (fun _ => true) (fun _ => None)
               (fun log => Some (Z.of_nat (length log)))
               (fun _ => false) (fun _ => None))
           "v"%string "f"%string []).
  reflexivity.
Defined.

(** ** Continuity of the colour in the hue *)

(** At the end points 0 and 1 that the code uses, [hue2rgb] has no jump:
    between two arguments at most one turn outside [0, 1] it changes by at
    most six times their distance. *)
Lemma hue2rgb_lipschitz (t t' : Q) :
  -1 <= t -> t <= t' -> t' <= 2 ->
  Canvas.hue2rgb 0 1 t' - Canvas.hue2rgb 0 1 t <= 6 * (t' - t)
  /\ Canvas.hue2rgb 0 1 t - Canvas.hue2rgb 0 1 t' <= 6 * (t' - t).
Proof.
  intros Hlo Hle Hhi. unfold Canvas.hue2rgb. cbv zeta.
  repeat qcases; try (exfalso; qlra); split; qlra.
Qed.

(** X23.  The colour is continuous in the hue: for two hues of [0, 1]
    each channel of the shader's colour at saturation 1 and lightness 0.5
    changes by at most six times their distance, and the hue circle is
    closed: hue 1 gives the colour of hue 0. *)
Theorem X23_colour_continuous_in_hue (h h' : Q) :
  0 <= h -> h <= h' -> h' <= 1 ->
  (v3x (Shader.hsl2rgb h' 1 0.5) - v3x (Shader.hsl2rgb h 1 0.5) <= 6 * (h' - h)
   /\ v3x (Shader.hsl2rgb h 1 0.5) - v3x (Shader.hsl2rgb h' 1 0.5)
      <= 6 * (h' - h))
  /\ (v3y (Shader.hsl2rgb h' 1 0.5) - v3y (Shader.hsl2rgb h 1 0.5)
      <= 6 * (h' - h)
      /\ v3y (Shader.hsl2rgb h 1 0.5) - v3y (Shader.hsl2rgb h' 1 0.5)
         <= 6 * (h' - h))
  /\ (v3z (Shader.hsl2rgb h' 1 0.5) - v3z (Shader.hsl2rgb h 1 0.5)
      <= 6 * (h' - h)
      /\ v3z (Shader.hsl2rgb h 1 0.5) - v3z (Shader.hsl2rgb h' 1 0.5)
         <= 6 * (h' - h))
  /\ (v3x (Shader.hsl2rgb 1 1 0.5) == v3x (Shader.hsl2rgb 0 1 0.5)
      /\ v3y (Shader.hsl2rgb 1 1 0.5) == v3y (Shader.hsl2rgb 0 1 0.5)
      /\ v3z (Shader.hsl2rgb 1 1 0.5) == v3z (Shader.hsl2rgb 0 1 0.5)).
Proof.
  intros H0 Hle H1.
  destruct (shader_channels h) as [Hx [Hy Hz]].
  destruct (shader_channels h') as [Hx' [Hy' Hz']].
  rewrite Hx, Hy, Hz, Hx', Hy', Hz'.
  destruct (hue2rgb_lipschitz (h + 1 / 3) (h' + 1 / 3)) as [A1 A2];
    try qlra.
  destruct (hue2rgb_lipschitz h h') as [B1 B2]; try qlra.
  destruct (hue2rgb_lipschitz (h - 1 / 3) (h' - 1 / 3)) as [C1 C2];
    try qlra.
  split; [split; qlra|]. split; [split; qlra|]. split; [split; qlra|].
  vm_compute. repeat split; reflexivity.
Qed.

Lemma X23_witness :
  0 <= 1 / 4 /\ 1 / 4 <= 1 / 3 /\ 1 / 3 <= 1 /\
  ((v3x (Shader.hsl2rgb (1 / 3) 1 0.5) - v3x (Shader.hsl2rgb (1 / 4) 1 0.5)
    <= 6 * (1 / 3 - 1 / 4)
    /\ v3x (Shader.hsl2rgb (1 / 4) 1 0.5) - v3x (Shader.hsl2rgb (1 / 3) 1 0.5)
       <= 6 * (1 / 3 - 1 / 4))
   /\ (v3y (Shader.hsl2rgb (1 / 3) 1 0.5) - v3y (Shader.hsl2rgb (1 / 4) 1 0.5)
       <= 6 * (1 / 3 - 1 / 4)
       /\ v3y (Shader.hsl2rgb (1 / 4) 1 0.5)
          - v3y (Shader.hsl2rgb (1 / 3) 1 0.5)
          <= 6 * (1 / 3 - 1 / 4))
   /\ (v3z (Shader.hsl2rgb (1 / 3) 1 0.5) - v3z (Shader.hsl2rgb (1 / 4) 1 0.5)
       <= 6 * (1 / 3 - 1 / 4)
       /\ v3z (Shader.hsl2rgb (1 / 4) 1 0.5)
          - v3z (Shader.hsl2rgb (1 / 3) 1 0.5)
          <= 6 * (1 / 3 - 1 / 4))
   /\ (v3x (Shader.hsl2rgb 1 1 0.5) == v3x (Shader.hsl2rgb 0 1 0.5)
       /\ v3y (Shader.hsl2rgb 1 1 0.5) == v3y (Shader.hsl2rgb 0 1 0.5)
       /\ v3z (Shader.hsl2rgb 1 1 0.5) == v3z (Shader.hsl2rgb 0 1 0.5))).
Proof.
  assert (H1 : 0 <= 1 / 4) by discriminate.
  assert (H2 : 1 / 4 <= 1 / 3) by discriminate.
  assert (H3 : 1 / 3 <= 1) by discriminate.
  split; [exact H1 | split; [exact H2 | split; [exact H3|]]].
  exact (X23_colour_continuous_in_hue (1 / 4) (1 / 3) H1 H2 H3).
Defined.

(** ** The frames the component draws *)

(** X24.  In every frame of the animation, whatever the numbers of
    updates the two tweens have made and whatever the size of the canvas,
    the uniforms uploaded have a scale in [1, 1000000), a hue shift in
    [0, 360) and a cap in [500, 2500); the shader's loop then never
    reports the cap, and no fragment of the frame is black. *)
Theorem X24_frames_never_black (n m : nat) (width height : Z) (frag : vec2) :
  (1 <= Shader.uScale
          (Viewer.frame_uniforms width height (Viewer.scale_after n)
             (Viewer.hue_after m))
   /\ Shader.uScale
        (Viewer.frame_uniforms width height (Viewer.scale_after n)
           (Viewer.hue_after m)) < 1000000)
  /\ (0 <= Shader.uHueShift
             (Viewer.frame_uniforms width height (Viewer.scale_after n)
                (Viewer.hue_after m))
      /\ Shader.uHueShift
           (Viewer.frame_uniforms width height (Viewer.scale_after n)
              (Viewer.hue_after m)) < 360)
  /\ (500 <= Shader.uMaxIter
               (Viewer.frame_uniforms width height (Viewer.scale_after n)
                  (Viewer.hue_after m)) < 2500)%Z
  /\ (v4x (Shader.main
             (Viewer.frame_uniforms width height (Viewer.scale_after n)
                (Viewer.hue_after m)) frag) == 1
      \/ v4y (Shader.main
                (Viewer.frame_uniforms width height (Viewer.scale_after n)
                   (Viewer.hue_after m)) frag) == 1
      \/ v4z (Shader.main
                (Viewer.frame_uniforms width height (Viewer.scale_after n)
                   (Viewer.hue_after m)) frag) == 1)
  /\ ~ vec4_eq
         (Shader.main
            (Viewer.frame_uniforms width height (Viewer.scale_after n)
               (Viewer.hue_after m)) frag)
         (Vec4 0 0 0 1).
Proof.
  pose proof (frame_cap_range n) as Hcap.
  destruct (scale_after_bounds n) as [Hs1 Hs2]. pose proof MAX_SCALE_value as HM.
  destruct (hue_after_range m) as [Hh0 Hh1].
  set (u := Viewer.frame_uniforms width height (Viewer.scale_after n)
              (Viewer.hue_after m)).
  assert (Hfull : v4x (Shader.main u frag) == 1
                  \/ v4y (Shader.main u frag) == 1
                  \/ v4z (Shader.main u frag) == 1).
  { unfold Shader.main. destruct (Shader.sample u frag) as [x0 y0].
    unfold u, Viewer.frame_uniforms. cbn [Shader.uMaxIter Shader.uHueShift].
    destruct (shader_iterate_below_cap
                (Viewer.dynamicMaxIter (Viewer.scale_after n)) x0 y0)
      as [_ Hbelow].
    apply shader_color_full_channel. lia. }
  split; [unfold u, Viewer.frame_uniforms; cbn [Shader.uScale]; split; lra|].
  split; [unfold u, Viewer.frame_uniforms; cbn [Shader.uHueShift];
          split; assumption|].
  split; [unfold u, Viewer.frame_uniforms; cbn [Shader.uMaxIter]; exact Hcap|].
  split; [exact Hfull|].
  unfold vec4_eq. cbn [v4x v4y v4z v4w]. intros [Hx [Hy [Hz _]]].
  destruct Hfull as [Hf | [Hf | Hf]]; rewrite Hf in *; discriminate.
Qed.

(** ** The count as a function of the cap *)

(** A larger cap never gives a smaller count. *)
Lemma while_loop_iter_mono (fuel : nat) :
  forall (fuel' : nat) (m m' : Z) (x0 y0 : Q) (st : IterState),
    (m <= m')%Z -> (m' - it_iter st <= Z.of_nat fuel')%Z ->
    (it_iter (Canvas.while_loop fuel m x0 y0 st)
     <= it_iter (Canvas.while_loop fuel' m' x0 y0 st))%Z.
Proof.
  induction fuel as [|fuel IH]; intros fuel' m m' x0 y0 st Hm Hfuel;
    cbn [Canvas.while_loop].
  - apply while_loop_iter_range.
  - destruct (it_x st * it_x st + it_y st * it_y st <=? 4) eqn:Hmag;
      cbn [andb]; [|apply while_loop_iter_range].
    destruct (it_iter st <? m)%Z eqn:Hlt; [|apply while_loop_iter_range].
    apply Z.ltb_lt in Hlt. destruct fuel' as [|fuel']; [lia|].
    cbn [Canvas.while_loop]. rewrite Hmag.
    replace (it_iter st <? m')%Z with true by (symmetry; apply Z.ltb_lt; lia).
    cbn [andb]. apply IH; [exact Hm | cbn [it_iter]; lia].
Qed.

(** X25.  The count for a smaller cap is the count for a larger cap, cut
    at the smaller cap: for [0 <= maxIter <= maxIter'] the canvas loop with
    cap [maxIter] ends with the minimum of [maxIter] and the count it ends
    with under cap [maxIter']. *)
Theorem X25_count_is_cut_at_the_cap (maxIter maxIter' : Z) (x0 y0 : Q) :
  (0 <= maxIter)%Z -> (maxIter <= maxIter')%Z ->
  it_iter (Canvas.escape_time maxIter x0 y0)
  = Z.min maxIter (it_iter (Canvas.escape_time maxIter' x0 y0)).
Proof.
  intros H0 Hm.
  pose proof (while_loop_iter_range (Z.to_nat maxIter) maxIter x0 y0
                (mkIter 0 0 0)) as Hrange.
  fold (Canvas.escape_time maxIter x0 y0) in Hrange. cbn [it_iter] in Hrange.
  pose proof (escape_time_exits maxIter x0 y0) as Hexit.
  unfold Canvas.continues in Hexit. apply andb_false_iff in Hexit.
  destruct Hexit as [Hmag | Hcap].
  - apply leb_gt in Hmag.
    assert (Heq : Canvas.escape_time maxIter' x0 y0
                  = Canvas.escape_time maxIter x0 y0).
    { unfold Canvas.escape_time in *.
      apply while_loop_cap_mono; [exact Hm | cbn [it_iter]; lia | exact Hmag]. }
    rewrite Heq. lia.
  - apply Z.ltb_ge in Hcap.
    pose proof (while_loop_iter_mono (Z.to_nat maxIter) (Z.to_nat maxIter')
                  maxIter maxIter' x0 y0 (mkIter 0 0 0) Hm) as Hmono.
    fold (Canvas.escape_time maxIter x0 y0) in Hmono.
    fold (Canvas.escape_time maxIter' x0 y0) in Hmono.
    cbn [it_iter] in Hmono. lia.
Qed.

Lemma X25_witness :
  (0 <= 3)%Z /\ (3 <= 500)%Z /\
  it_iter (Canvas.escape_time 3 (1 / 2) (1 / 2))
  = Z.min 3 (it_iter (Canvas.escape_time 500 (1 / 2) (1 / 2))).
Proof.
  assert (H1 : (0 <= 3)%Z) by lia.
  assert (H2 : (3 <= 500)%Z) by lia.
  split; [exact H1 | split; [exact H2|]].
  exact (X25_count_is_cut_at_the_cap 3 500 (1 / 2) (1 / 2) H1 H2).
Defined.
